(** * acai-travel-challenge: observability layer and title/reply orchestration

    A shallow embedding of
    - [internal/httpx/otel.go]    (telemetry lifecycle),
    - [internal/httpx/metrics.go] (status capturing writer, metrics middleware),
    - the [Title] and [StartConversation] snippets of [README.md],
    together with the parts of Go's [unicode/utf8], [unicode] and [strings]
    packages that the snippets call.

    Go values are modelled as follows: a [string] is a byte string (Rocq
    [string], one [ascii] per byte), a [rune] and an [int] are [Z], an
    [error] is [option GoError] with [None] for [nil]. Code that changes
    process-wide state is a function on that state; the three routines of
    [StartConversation] are a step relation on the state they share, and a
    property of the orchestration is a property of every interleaving.

    The file has the models first, then the vocabulary the properties are
    stated in, then the properties: telemetry lifecycle, metrics middleware,
    blank strings, orchestration, fallback titles; and after them further
    properties of the same code and of the first versions of [Title] and
    [StartConversation] that [README.md] quotes. *)

From stdpp Require Import base tactics option list relations strings.
From Stdlib Require Import ZArith Lia String Ascii SpecFloat.

Local Open Scope Z_scope.

(** ** Bytes and byte strings *)

Abbreviation bytes := (list ascii).

Definition ord (c : ascii) : Z := Z.of_N (N_of_ascii c).
Definition chr (z : Z) : ascii := ascii_of_N (Z.to_N z).

Definition bytes_of (s : string) : bytes := list_ascii_of_string s.
Definition string_of (b : bytes) : string := string_of_list_ascii b.

(** [len(s)] *)
Definition len (s : bytes) : nat := List.length s.

(** ** [unicode/utf8] *)
Module utf8.

Definition RuneError : Z := 65533.   (* U+FFFD *)
Definition RuneSelf : Z := 128.      (* 0x80 *)
Definition MaxRune : Z := 1114111.   (* U+10FFFF *)
Definition UTFMax : nat := 4.

Definition surrogateMin : Z := 55296. (* 0xD800 *)
Definition surrogateMax : Z := 57343. (* 0xDFFF *)

Definition maskx : Z := 63.  (* 0b00111111 *)
Definition mask2 : Z := 31.  (* 0b00011111 *)
Definition mask3 : Z := 15.  (* 0b00001111 *)
Definition mask4 : Z := 7.   (* 0b00000111 *)

Definition locb : Z := 128.  (* 0b10000000 *)
Definition hicb : Z := 191.  (* 0b10111111 *)

(** The codes of the [first] table: the low three bits are the size of the
    sequence, the high four bits index [acceptRanges]. *)
Definition xx : Z := 241.  (* 0xF1: invalid, size 1 *)
Definition as_ : Z := 240. (* 0xF0: ASCII, size 1 *)
Definition s1 : Z := 2.    (* 0x02: accept 0, size 2 *)
Definition s2 : Z := 19.   (* 0x13: accept 1, size 3 *)
Definition s3 : Z := 3.    (* 0x03: accept 0, size 3 *)
Definition s4 : Z := 35.   (* 0x23: accept 2, size 3 *)
Definition s5 : Z := 52.   (* 0x34: accept 3, size 4 *)
Definition s6 : Z := 4.    (* 0x04: accept 0, size 4 *)
Definition s7 : Z := 68.   (* 0x44: accept 4, size 4 *)

(** [first[b]]: information about the first byte of a UTF-8 sequence. *)
Definition first (b : Z) : Z :=
  if b <? 128 then as_            (* 0x00-0x7F *)
  else if b <? 194 then xx        (* 0x80-0xC1 *)
  else if b <? 224 then s1        (* 0xC2-0xDF *)
  else if b =? 224 then s2        (* 0xE0 *)
  else if b <? 237 then s3        (* 0xE1-0xEC *)
  else if b =? 237 then s4        (* 0xED *)
  else if b <? 240 then s3        (* 0xEE-0xEF *)
  else if b =? 240 then s5        (* 0xF0 *)
  else if b <? 244 then s6        (* 0xF1-0xF3 *)
  else if b =? 244 then s7        (* 0xF4 *)
  else xx.                        (* 0xF5-0xFF *)

(** [acceptRanges[i]] as its pair (lo, hi). *)
Definition acceptRanges (i : Z) : Z * Z :=
  if i =? 0 then (locb, hicb)
  else if i =? 1 then (160, hicb)   (* 0xA0 *)
  else if i =? 2 then (locb, 159)   (* 0x9F *)
  else if i =? 3 then (144, hicb)   (* 0x90 *)
  else if i =? 4 then (locb, 143)   (* 0x8F *)
  else (0, 0).

(** [DecodeRuneInString(s)]: the first rune of [s] and its width in bytes;
    [(RuneError, 0)] on the empty string, [(RuneError, 1)] on a bad encoding. *)
Definition DecodeRuneInString (s : bytes) : Z * nat :=
  match s with
  | [] => (RuneError, 0%nat)
  | c0 :: t0 =>
    let b0 := ord c0 in
    let x := first b0 in
    if as_ <=? x then
      (* the mask-and-or of the source: the byte itself for [as], RuneError for [xx] *)
      (if x =? xx then RuneError else b0, 1%nat)
    else
      let sz := Z.to_nat (Z.land x 7) in
      let accept := acceptRanges (Z.shiftr x 4) in
      if (len s <? sz)%nat then (RuneError, 1%nat)
      else
        match t0 with
        | [] => (RuneError, 1%nat)
        | c1 :: t1 =>
          let b1 := ord c1 in
          if (b1 <? fst accept) || (snd accept <? b1) then (RuneError, 1%nat)
          else if (sz <=? 2)%nat then
            (Z.lor (Z.shiftl (Z.land b0 mask2) 6) (Z.land b1 maskx), 2%nat)
          else
            match t1 with
            | [] => (RuneError, 1%nat)
            | c2 :: t2 =>
              let b2 := ord c2 in
              if (b2 <? locb) || (hicb <? b2) then (RuneError, 1%nat)
              else if (sz <=? 3)%nat then
                (Z.lor (Z.lor (Z.shiftl (Z.land b0 mask3) 12)
                              (Z.shiftl (Z.land b1 maskx) 6))
                       (Z.land b2 maskx), 3%nat)
              else
                match t2 with
                | [] => (RuneError, 1%nat)
                | c3 :: _ =>
                  let b3 := ord c3 in
                  if (b3 <? locb) || (hicb <? b3) then (RuneError, 1%nat)
                  else
                    (Z.lor (Z.lor (Z.lor (Z.shiftl (Z.land b0 mask4) 18)
                                         (Z.shiftl (Z.land b1 maskx) 12))
                                  (Z.shiftl (Z.land b2 maskx) 6))
                           (Z.land b3 maskx), 4%nat)
                end
            end
        end
  end.

(** [RuneStart(b)]: [b] is not a continuation byte. *)
Definition RuneStart (b : Z) : bool := negb (Z.land b 192 =? 128).

(** The loop [for start--; start >= lim; start-- { if RuneStart(s[start]) { break } }]
    of [DecodeLastRuneInString], on the integer [start] (it may end at [lim - 1]);
    [n] bounds the number of iterations. *)
Fixpoint back_to_start (s : bytes) (lim : Z) (n : nat) (start : Z) : Z :=
  match n with
  | O => start
  | S n' =>
    if start <? lim then start
    else if RuneStart (ord (nth (Z.to_nat start) s zero)) then start
    else back_to_start s lim n' (start - 1)
  end.

(** [DecodeLastRuneInString(s)]: the last rune of [s] and its width. *)
Definition DecodeLastRuneInString (s : bytes) : Z * nat :=
  let end_ := Z.of_nat (len s) in
  if end_ =? 0 then (RuneError, 0%nat)
  else
    let start := end_ - 1 in
    let r := ord (nth (Z.to_nat start) s zero) in
    if r <? RuneSelf then (r, 1%nat)
    else
      let lim := Z.max (end_ - Z.of_nat UTFMax) 0 in
      let start := back_to_start s lim UTFMax (start - 1) in
      let start := if start <? 0 then 0 else start in
      let '(r, size) := DecodeRuneInString (drop (Z.to_nat start) s) in
      if negb (start + Z.of_nat size =? end_) then (RuneError, 1%nat)
      else (r, size).

(** [AppendRune(nil, r)]: the UTF-8 encoding of [r]; out-of-range runes and
    surrogates are encoded as [RuneError]. *)
Definition encode3 (r : Z) : bytes :=
  [chr (Z.lor 224 (Z.shiftr r 12));
   chr (Z.lor 128 (Z.land (Z.shiftr r 6) maskx));
   chr (Z.lor 128 (Z.land r maskx))].

Definition EncodeRune (r : Z) : bytes :=
  if (0 <=? r) && (r <=? 127) then [chr r]
  else if (0 <=? r) && (r <=? 2047) then
    [chr (Z.lor 192 (Z.shiftr r 6)); chr (Z.lor 128 (Z.land r maskx))]
  else if (r <? 0) || (MaxRune <? r) || ((surrogateMin <=? r) && (r <=? surrogateMax))
  then encode3 RuneError
  else if r <=? 65535 then encode3 r
  else
    [chr (Z.lor 240 (Z.shiftr r 18));
     chr (Z.lor 128 (Z.land (Z.shiftr r 12) maskx));
     chr (Z.lor 128 (Z.land (Z.shiftr r 6) maskx));
     chr (Z.lor 128 (Z.land r maskx))].

End utf8.

(** ** [unicode] *)
Module unicode.

Definition MaxLatin1 : Z := 255.

(** [White_Space] without its Latin-1 part, as [isExcludingLatin] reads it. *)
Definition White_Space_excluding_Latin (r : Z) : bool :=
  (r =? 5760)                          (* U+1680 *)
  || ((8192 <=? r) && (r <=? 8202))    (* U+2000-U+200A *)
  || ((8232 <=? r) && (r <=? 8233))    (* U+2028-U+2029 *)
  || (r =? 8239)                       (* U+202F *)
  || (r =? 8287)                       (* U+205F *)
  || (r =? 12288).                     (* U+3000 *)

(** [IsSpace(r)] *)
Definition IsSpace (r : Z) : bool :=
  if (0 <=? r) && (r <=? MaxLatin1) then
    (* '\t', '\n', '\v', '\f', '\r', ' ', U+0085 (NEL), U+00A0 (NBSP) *)
    (r =? 9) || (r =? 10) || (r =? 11) || (r =? 12) || (r =? 13) || (r =? 32)
    || (r =? 133) || (r =? 160)
  else White_Space_excluding_Latin r.

End unicode.

(** ** [strings] *)
Module strings.

(** [asciiSpace[c] == 1] *)
Definition asciiSpace (c : Z) : bool :=
  (c =? 9) || (c =? 10) || (c =? 11) || (c =? 12) || (c =? 13) || (c =? 32).

(** [indexFunc(s, f, truth)], as the offset of the first rune [r] with
    [f(r) == truth] counted from [off] (the bytes already passed), [-1] when
    there is none. [s] is the rest of the string; [n] bounds the iterations
    of [for i, r := range s], each of which passes at least one byte. *)
Fixpoint indexFunc_from (n : nat) (f : Z -> bool) (truth : bool)
    (s : bytes) (off : nat) : Z :=
  match n with
  | O => -1
  | S n' =>
    match s with
    | [] => -1
    | _ :: _ =>
      let '(r, size) := utf8.DecodeRuneInString s in
      if Bool.eqb (f r) truth then Z.of_nat off
      else indexFunc_from n' f truth (drop size s) (off + size)
    end
  end.

Definition indexFunc (s : bytes) (f : Z -> bool) (truth : bool) : Z :=
  indexFunc_from (len s) f truth s 0.

(** [lastIndexFunc(s, f, truth)]: the loop
    [for i := len(s); i > 0; { r, size := DecodeLastRuneInString(s[0:i]); i -= size; ... }]. *)
Fixpoint lastIndexFunc_from (n : nat) (f : Z -> bool) (truth : bool)
    (s : bytes) (i : nat) : Z :=
  match n with
  | O => -1
  | S n' =>
    if (0 <? i)%nat then
      let '(r, size) := utf8.DecodeLastRuneInString (take i s) in
      let i := (i - size)%nat in
      if Bool.eqb (f r) truth then Z.of_nat i
      else lastIndexFunc_from n' f truth s i
    else -1
  end.

Definition lastIndexFunc (s : bytes) (f : Z -> bool) (truth : bool) : Z :=
  lastIndexFunc_from (len s) f truth s (len s).

(** [TrimLeftFunc(s, f)] *)
Definition TrimLeftFunc (s : bytes) (f : Z -> bool) : bytes :=
  let i := indexFunc s f false in
  if i =? -1 then [] else drop (Z.to_nat i) s.

(** [TrimRightFunc(s, f)] *)
Definition TrimRightFunc (s : bytes) (f : Z -> bool) : bytes :=
  let i := lastIndexFunc s f false in
  let i :=
    if (0 <=? i) && (utf8.RuneSelf <=? ord (nth (Z.to_nat i) s zero)) then
      let '(_, wid) := utf8.DecodeRuneInString (drop (Z.to_nat i) s) in
      i + Z.of_nat wid
    else i + 1 in
  take (Z.to_nat i) s.

(** [TrimFunc(s, f)] *)
Definition TrimFunc (s : bytes) (f : Z -> bool) : bytes :=
  TrimRightFunc (TrimLeftFunc s f) f.

(** The first loop of [TrimSpace]: [inl r] when a non-ASCII byte was met and
    [r] is what [TrimFunc] returned for the rest, [inr t] with [t = s[start:]]
    otherwise. *)
Fixpoint TrimSpace_start (s : bytes) : bytes + bytes :=
  match s with
  | [] => inr []
  | c :: s' =>
    if utf8.RuneSelf <=? ord c then inl (TrimFunc s unicode.IsSpace)
    else if negb (asciiSpace (ord c)) then inr s
    else TrimSpace_start s'
  end.

(** The second loop of [TrimSpace], on [t = s[start:]] and [stop - start]. *)
Fixpoint TrimSpace_stop (t : bytes) (stop : nat) : bytes :=
  match stop with
  | O => take stop t
  | S stop' =>
    let c := ord (nth stop' t zero) in
    if utf8.RuneSelf <=? c then TrimRightFunc (take stop t) unicode.IsSpace
    else if negb (asciiSpace c) then take stop t
    else TrimSpace_stop t stop'
  end.

Definition TrimSpace_bytes (s : bytes) : bytes :=
  match TrimSpace_start s with
  | inl r => r
  | inr t => TrimSpace_stop t (len t)
  end.

(** [TrimSpace(s)] *)
Definition TrimSpace (s : string) : string :=
  string_of (TrimSpace_bytes (bytes_of s)).

(** [makeASCIISet(chars)]: the set of the bytes of [chars], when all are ASCII. *)
Definition makeASCIISet (chars : bytes) : option (Z -> bool) :=
  if forallb (fun c => ord c <? utf8.RuneSelf) chars
  then Some (fun b => existsb (fun c => ord c =? b) chars)
  else None.

(** [trimLeftASCII(s, as)] *)
Fixpoint trimLeftASCII (s : bytes) (as_ : Z -> bool) : bytes :=
  match s with
  | [] => []
  | c :: s' => if as_ (ord c) then trimLeftASCII s' as_ else s
  end.

(** [trimRightASCII(s, as)], on [n = len(s)]. *)
Fixpoint trimRightASCII_at (s : bytes) (as_ : Z -> bool) (n : nat) : bytes :=
  match n with
  | O => take n s
  | S n' => if as_ (ord (nth n' s zero)) then trimRightASCII_at s as_ n' else take n s
  end.

Definition trimRightASCII (s : bytes) (as_ : Z -> bool) : bytes :=
  trimRightASCII_at s as_ (len s).

(** [Trim(s, cutset)] for a cutset of ASCII bytes: one byte is trimmed by
    [trimLeftByte]/[trimRightByte], two or more through [makeASCIISet], and
    both remove the same bytes. The source passes no other cutset; for one
    with a byte above 0x7F Go trims runes, which is not modelled, and [s] is
    returned as it is. *)
Definition Trim_bytes (s cutset : bytes) : bytes :=
  match s, cutset with
  | [], _ | _, [] => s
  | _, _ =>
    match makeASCIISet cutset with
    | Some as_ => trimLeftASCII (trimRightASCII s as_) as_
    | None => s
    end
  end.

Definition Trim (s cutset : string) : string :=
  string_of (Trim_bytes (bytes_of s) (bytes_of cutset)).

(** [bytealg.HasPrefix]-style test: [old] is a prefix of [s]. *)
Fixpoint has_prefix (s old : bytes) : bool :=
  match old, s with
  | [], _ => true
  | _ :: _, [] => false
  | o :: old', c :: s' => Ascii.eqb o c && has_prefix s' old'
  end.

(** The result of [Replace(s, old, new, -1)] for a non-empty [old]: every
    non-overlapping instance of [old], found from the left, becomes [new].
    [skip] is the number of bytes of [s] still inside the instance found last. *)
Fixpoint replace_nonempty (s old new : bytes) (skip : nat) : bytes :=
  match s with
  | [] => []
  | c :: s' =>
    match skip with
    | S k => replace_nonempty s' old new k
    | O =>
      if has_prefix s old then new ++ replace_nonempty s' old new (len old - 1)
      else c :: replace_nonempty s' old new 0
    end
  end.

(** The result of [Replace(s, "", new, -1)]: [new] before every rune of [s]
    and after the last. *)
Fixpoint replace_empty (s new : bytes) (skip : nat) : bytes :=
  match s with
  | [] => new
  | c :: s' =>
    match skip with
    | S k => c :: replace_empty s' new k
    | O => new ++ c :: replace_empty s' new (snd (utf8.DecodeRuneInString s) - 1)
    end
  end.

(** [ReplaceAll(s, old, new)] *)
Definition ReplaceAll (s old new : string) : string :=
  if String.eqb old new then s
  else
    match bytes_of old with
    | [] => string_of (replace_empty (bytes_of s) (bytes_of new) 0)
    | o => string_of (replace_nonempty (bytes_of s) o (bytes_of new) 0)
    end.

End strings.

(** ** Errors and contexts *)

(** A Go [error] value that is not [nil]. [twirp.InternalErrorWith(err)] wraps
    its cause; every other error is opaque and told apart by its message. *)
Inductive GoError : Type :=
| errors_New (msg : string)
| twirp_InternalErrorWith (cause : GoError).

(** [error]: [None] is [nil]. *)
Abbreviation error := (option GoError).

Definition is_nil (err : error) : bool :=
  match err with None => true | Some _ => false end.

(** A [context.Context], opaque to the code under study. *)
Variant Context : Type :=
| context_Background
| context_Derived (id : nat).

(** ** Code with effects on a state [S] *)

Definition State (S A : Type) : Type := S -> A * S.

Definition ret {S A} (a : A) : State S A := fun w => (a, w).
Definition bind {S A B} (m : State S A) (k : A -> State S B) : State S B :=
  fun w => let '(a, w') := m w in k a w'.

Notation "x <- m ;; k" := (bind m (fun x => k))
  (at level 100, m at next level, right associativity).
Notation "m ;;; k" := (bind m (fun _ => k))
  (at level 100, right associativity).

(** ** Package [httpx] *)
Module httpx.

(** *** [otel.go] *)

(** [attribute.KeyValue] *)
Inductive KeyValue : Type :=
| attribute_String (k v : string)
| attribute_Int (k : string) (v : Z).

Record Resource : Type := {
  res_schemaURL : string;
  res_attributes : list KeyValue }.

Variant MetricExporter : Type := stdoutmetric_Exporter (prettyPrint : bool).
Variant TraceExporter : Type := stdouttrace_Exporter (prettyPrint : bool).

Record PeriodicReader : Type := {
  reader_exporter : MetricExporter;
  reader_interval : Z (* nanoseconds *) }.

(** A provider as the SDK built it: [mp_resource] and [tp_resource] are the
    resource the provider ends with, which need not be the one it was given
    ([WithResource] merges the resource detected from the environment of the
    process into its argument). *)
Record MeterProvider : Type := {
  mp_reader : PeriodicReader;
  mp_resource : Resource }.

Record TracerProvider : Type := {
  tp_batcher : TraceExporter;
  tp_resource : Resource }.

(** What the process can observe of the telemetry calls, in call order. *)
Inductive Event : Type :=
| EvSetMeterProvider (mp : MeterProvider)
| EvSetTracerProvider (tp : TracerProvider)
| EvSlogInfo (msg : string)
| EvTracerShutdown (tp : TracerProvider) (ctx : Context)
| EvMeterShutdown (mp : MeterProvider) (ctx : Context).

(** The process-wide state of package [otel] ([None]: the provider was never
    set), and the calls made so far, oldest first. *)
Record World : Type := {
  globalMeterProvider : option MeterProvider;
  globalTracerProvider : option TracerProvider;
  events : list Event }.

Definition initial_World : World :=
  {| globalMeterProvider := None; globalTracerProvider := None; events := [] |}.

(** The OpenTelemetry SDK, as far as [InitTelemetry] calls it: the constructors
    that can fail, the constructors of the two providers, from the options
    [InitTelemetry] passes ([WithReader] and [WithResource],
    [WithBatcher] and [WithResource]), and the two [Shutdown] methods, whose
    outcome may depend on the calls made before. *)
Record SDK : Type := {
  resource_New : Context -> string -> list KeyValue -> Resource * error;
  stdoutmetric_New : bool -> MetricExporter * error;
  stdouttrace_New : bool -> TraceExporter * error;
  sdkmetric_NewMeterProvider : PeriodicReader -> Resource -> MeterProvider;
  sdktrace_NewTracerProvider : TraceExporter -> Resource -> TracerProvider;
  TracerProvider_Shutdown : TracerProvider -> Context -> list Event -> error;
  MeterProvider_Shutdown : MeterProvider -> Context -> list Event -> error }.

Definition emit (e : Event) : State World unit :=
  fun w => (tt, {| globalMeterProvider := globalMeterProvider w;
                   globalTracerProvider := globalTracerProvider w;
                   events := events w ++ [e] |}).

(** [otel.SetMeterProvider(mp)] *)
Definition otel_SetMeterProvider (mp : MeterProvider) : State World unit :=
  fun w => (tt, {| globalMeterProvider := Some mp;
                   globalTracerProvider := globalTracerProvider w;
                   events := events w ++ [EvSetMeterProvider mp] |}).

(** [otel.SetTracerProvider(tp)] *)
Definition otel_SetTracerProvider (tp : TracerProvider) : State World unit :=
  fun w => (tt, {| globalMeterProvider := globalMeterProvider w;
                   globalTracerProvider := Some tp;
                   events := events w ++ [EvSetTracerProvider tp] |}).

(** [tp.Shutdown(ctx)] *)
Definition tp_Shutdown (sdk : SDK) (tp : TracerProvider) (ctx : Context)
  : State World error :=
  fun w => let err := TracerProvider_Shutdown sdk tp ctx (events w) in
           (err, snd (emit (EvTracerShutdown tp ctx) w)).

(** [mp.Shutdown(ctx)] *)
Definition mp_Shutdown (sdk : SDK) (mp : MeterProvider) (ctx : Context)
  : State World error :=
  fun w => let err := MeterProvider_Shutdown sdk mp ctx (events w) in
           (err, snd (emit (EvMeterShutdown mp ctx) w)).

(** [type Shutdown func(ctx context.Context) error] *)
Definition Shutdown : Type := Context -> State World error.

Definition semconv_SchemaURL : string := "https://opentelemetry.io/schemas/1.24.0".
Definition semconv_ServiceNameKey : string := "service.name".

(** [time.Second], in nanoseconds. *)
Definition time_Second : Z := 1000000000.

(** The closure [InitTelemetry] returns (otel.go, lines 56-61). *)
Definition shutdown_closure (sdk : SDK) (tp : TracerProvider) (mp : MeterProvider)
  : Shutdown :=
  fun ctx =>
    err <- tp_Shutdown sdk tp ctx ;;
    if negb (is_nil err) then ret err
    else mp_Shutdown sdk mp ctx.

(** [InitTelemetry(ctx, serviceName)]; the first component is [None] for a
    [nil] [Shutdown]. *)
Definition InitTelemetry (sdk : SDK) (ctx : Context) (serviceName : string)
  : State World (option Shutdown * error) :=
  let '(res, err) :=
    resource_New sdk ctx semconv_SchemaURL
      [attribute_String semconv_ServiceNameKey serviceName] in
  if negb (is_nil err) then ret (None, err)
  else
    let '(metricExp, err) := stdoutmetric_New sdk true in
    if negb (is_nil err) then ret (None, err)
    else
      let reader :=
        {| reader_exporter := metricExp; reader_interval := 10 * time_Second |} in
      let mp := sdkmetric_NewMeterProvider sdk reader res in
      otel_SetMeterProvider mp ;;;
      let '(traceExp, err) := stdouttrace_New sdk true in
      if negb (is_nil err) then ret (None, err)
      else
        let tp := sdktrace_NewTracerProvider sdk traceExp res in
        otel_SetTracerProvider tp ;;;
        emit (EvSlogInfo "OpenTelemetry initialized") ;;;
        ret (Some (shutdown_closure sdk tp mp), None).

(** *** [metrics.go] *)

(** The three package-level instruments. *)
Variant Instrument : Type := reqCounter | errCounter | latencyHistogram.

(** The name and the description each one is created with in [init], on the
    meter [Meter()] returns; [init] drops the errors of the three creations. *)
Definition meter_name : string := "acai-server".

Definition instrument_name (i : Instrument) : string :=
  match i with
  | reqCounter => "http.server.requests"
  | errCounter => "http.server.errors"
  | latencyHistogram => "http.server.duration.ms"
  end.

Definition instrument_description (i : Instrument) : string :=
  match i with
  | reqCounter => "Total number of HTTP requests"
  | errCounter => "Total number of HTTP error responses (status >= 400)"
  | latencyHistogram => "Request duration in milliseconds"
  end.

(** A [float64], by the IEEE 754 binary64 specification of the Standard
    Library. *)
Abbreviation float64 := SpecFloat.spec_float.

(** The conversion [float64(n)] of an [int64], rounding to nearest even. *)
Definition float64_of_int64 (n : Z) : float64 :=
  SpecFloat.binary_normalize 53 1024 n 0 false.

(** A call of [Add] on a counter or of [Record] on the histogram, with the
    context, the value and the attributes it was given. *)
Inductive Measurement : Type :=
| Int64Counter_Add (i : Instrument) (ctx : Context) (incr : Z) (attrs : list KeyValue)
| Float64Histogram_Record (i : Instrument) (ctx : Context) (value : float64)
    (attrs : list KeyValue).

(** The [*http.Request] fields the middleware reads. *)
Record Request : Type := {
  Method : string;
  URL_Path : string;
  req_Context : Context }.

(** How a call ends: it returns a value, or it panics; either way it leaves
    the writer it worked on in some state. *)
Inductive Call (W A : Type) : Type :=
| Returned (a : A) (w : W)
| Panicked (w : W).

Arguments Returned {W A} a w.
Arguments Panicked {W A} w.

Definition writer_of {W A} (c : Call W A) : W :=
  match c with Returned _ w | Panicked w => w end.

Definition returns {W A} (c : Call W A) : bool :=
  match c with Returned _ _ => true | Panicked _ => false end.

(** [http.ResponseWriter], by the dynamic type [W] of the value behind the
    interface. [Header_Set k v] stands for [w.Header().Set(k, v)]. Any of
    the three methods may panic (the writers of [net/http] do on a status
    code outside 100..999). [implements i] tells whether the type [W] also has
    the optional interface named [i] ([http.Flusher], [http.Hijacker],
    [http.Pusher], [io.ReaderFrom], the [Unwrap] of [http.ResponseController]),
    so that a type assertion to it succeeds; [Optional_call i] is a call of
    the method of that interface, with its result as a number. *)
Class ResponseWriter (W : Type) : Type := {
  Header_Set : string -> string -> W -> Call W unit;
  Write : string -> W -> Call W (Z * error);
  WriteHeader : Z -> W -> Call W unit;
  implements : string -> bool;
  Optional_call : string -> W -> Call W Z }.

Arguments implements W {_} i.

Definition http_StatusOK : Z := 200.

(** [statusCapturingWriter] over a writer of type [W]. *)
Record statusCapturingWriter (W : Type) : Type := {
  inner : W;
  status : Z }.

Arguments inner {W} _.
Arguments status {W} _.

(** A call on the embedded writer, seen from the wrapper that holds the status
    [st]. *)
Definition on_inner {W A} (st : Z) (c : Call W A) : Call (statusCapturingWriter W) A :=
  match c with
  | Returned a i => Returned a {| inner := i; status := st |}
  | Panicked i => Panicked {| inner := i; status := st |}
  end.

(** [func (w *statusCapturingWriter) WriteHeader(code int)]: the status is
    set before the inner call, and stays set when that call panics. *)
Definition statusCapturingWriter_WriteHeader {W} `{ResponseWriter W}
    (code : Z) (w : statusCapturingWriter W) : Call (statusCapturingWriter W) unit :=
  on_inner code (WriteHeader code (inner w)).

(** The embedded [http.ResponseWriter] promotes [Header] and [Write]: they run
    on the inner writer and leave [status] alone. The method set of
    [*statusCapturingWriter] is these three methods and no other, whatever
    the inner writer has: a type assertion of the wrapper to an optional
    interface fails, so that no optional method is ever called on it. *)
#[export] Instance statusCapturingWriter_ResponseWriter {W} `{ResponseWriter W}
  : ResponseWriter (statusCapturingWriter W) := {
  Header_Set k v w := on_inner (status w) (Header_Set k v (inner w));
  Write b w := on_inner (status w) (Write b (inner w));
  WriteHeader := statusCapturingWriter_WriteHeader;
  implements _ := false;
  Optional_call _ w := Panicked w }.

(** What a handler does with the [ResponseWriter] it is given, until it
    returns or panics: the calls it makes, each [Write] followed by what the
    handler does with the result. [CallOptional i rest] is a type assertion of
    the writer to the optional interface [i], followed by a call of its
    method when the assertion succeeds; the handler goes on with [rest None]
    when it fails and with [rest (Some result)] after the call. The handler
    leaves the request as it is (the contract of [http.Handler]). A handler
    that never returns is not among these: control does not come back to
    the caller of [ServeHTTP] then. *)
Inductive HandlerProg : Type :=
| Return
| Panic
| CallHeaderSet (k v : string) (rest : HandlerProg)
| CallWriteHeader (code : Z) (rest : HandlerProg)
| CallWrite (body : string) (rest : Z * error -> HandlerProg)
| CallOptional (i : string) (rest : option Z -> HandlerProg).

(** An [http.Handler]: its behaviour on each request. *)
Definition Handler : Type := Request -> HandlerProg.

(** The run of a handler on a writer: a panic of the handler or of a method
    it calls ends the run. *)
Fixpoint run_prog {W} `{ResponseWriter W} (p : HandlerProg) (w : W) : Call W unit :=
  match p with
  | Return => Returned tt w
  | Panic => Panicked w
  | CallHeaderSet k v rest =>
    match Header_Set k v w with
    | Returned _ w' => run_prog rest w'
    | Panicked w' => Panicked w'
    end
  | CallWriteHeader code rest =>
    match WriteHeader code w with
    | Returned _ w' => run_prog rest w'
    | Panicked w' => Panicked w'
    end
  | CallWrite body rest =>
    match Write body w with
    | Returned res w' => run_prog (rest res) w'
    | Panicked w' => Panicked w'
    end
  | CallOptional i rest =>
    if implements W i
    then match Optional_call i w with
         | Returned res w' => run_prog (rest (Some res)) w'
         | Panicked w' => Panicked w'
         end
    else run_prog (rest None) w
  end.

(** [next.ServeHTTP(w, r)] *)
Definition ServeHTTP {W} `{ResponseWriter W} (next : Handler) (w : W) (r : Request)
  : Call W unit :=
  run_prog (next r) w.

(** The state the middleware works on: the monotonic clock ([clock i] is its
    [i]-th reading, in nanoseconds since the process started), the number of
    readings taken, and the measurements recorded, oldest first. *)
Record Telemetry : Type := {
  clock : nat -> Z;
  reads : nat;
  recorded : list Measurement }.

Definition read_clock : State Telemetry Z :=
  fun t => (clock t (reads t),
            {| clock := clock t; reads := S (reads t); recorded := recorded t |}).

Definition record (m : Measurement) : State Telemetry unit :=
  fun t => (tt, {| clock := clock t; reads := reads t;
                   recorded := recorded t ++ [m] |}).

(** An [int64] result, wrapped around. *)
Definition wrap64 (z : Z) : Z := (z + 2 ^ 63) mod 2 ^ 64 - 2 ^ 63.

Definition maxDuration : Z := 2 ^ 63 - 1.
Definition minDuration : Z := - 2 ^ 63.

(** [time.Now()]: the monotonic reading of the [Time] it returns. *)
Definition time_Now : State Telemetry Z := read_clock.

(** [subMono(t, u)]: [t - u] as a [Duration], saturating. *)
Definition subMono (t u : Z) : Z :=
  let d := wrap64 (t - u) in
  if (d <? 0) && (u <? t) then maxDuration
  else if (0 <? d) && (t <? u) then minDuration
  else d.

(** [time.Since(t)] for a [t] with a monotonic reading. *)
Definition time_Since (t : Z) : State Telemetry Z :=
  now <- read_clock ;; ret (subMono now t).

(** [d.Milliseconds()]: [int64(d) / 1e6], rounded towards zero. *)
Definition Milliseconds (d : Z) : Z := Z.quot d 1000000.

(** The attributes of a request (metrics.go, lines 44-48). *)
Definition request_attrs (r : Request) (status : Z) : list KeyValue :=
  [attribute_String "http.method" (Method r);
   attribute_String "http.route" (URL_Path r);
   attribute_Int "http.status_code" status].

(** [MetricsMiddleware(next)], as the handler it returns, run on the writer
    [w] and the request [r]: how the call ends, with the writer as the
    handler left it. There is no [defer] and no [recover] in it: a panic
    under [next.ServeHTTP] leaves through line 42, and lines 44 to 54 do not
    run. *)
Definition MetricsMiddleware (next : Handler) {W} `{ResponseWriter W}
    (w : W) (r : Request) : State Telemetry (Call W unit) :=
  start <- time_Now ;;
  let sw := {| inner := w; status := http_StatusOK |} in
  match ServeHTTP next sw r with
  | Panicked sw => ret (Panicked (inner sw))
  | Returned _ sw =>
    let attrs := request_attrs r (status sw) in
    record (Int64Counter_Add reqCounter (req_Context r) 1 attrs) ;;;
    d <- time_Since start ;;
    record (Float64Histogram_Record latencyHistogram (req_Context r)
              (float64_of_int64 (Milliseconds d)) attrs) ;;;
    (if 400 <=? status sw
     then record (Int64Counter_Add errCounter (req_Context r) 1 attrs)
     else ret tt) ;;;
    ret (Returned tt (inner sw))
  end.

(** A writer for the examples. It keeps the first status code and the body
    it is sent: a [Write] before any [WriteHeader] sends 200, a [WriteHeader]
    after the header was sent does nothing, and one with a code outside
    100..999 panics, as the writers of [net/http] do. It keeps the headers as
    they were set, sets none of its own, and has [http.Flusher], whose
    [Flush] sends the header. *)
Record Recorder : Type := {
  wroteHeader : bool;
  Code : Z;
  HeaderMap : list (string * string);
  Body : string;
  Flushed : bool }.

Definition Recorder_send (code : Z) (w : Recorder) : Recorder :=
  if wroteHeader w then w
  else {| wroteHeader := true; Code := code; HeaderMap := HeaderMap w;
          Body := Body w; Flushed := Flushed w |}.

Definition Recorder_WriteHeader (code : Z) (w : Recorder) : Call Recorder unit :=
  if wroteHeader w then Returned tt w
  else if (code <? 100) || (999 <? code) then Panicked w
  else Returned tt (Recorder_send code w).

#[export] Instance Recorder_ResponseWriter : ResponseWriter Recorder := {
  Header_Set k v w :=
    Returned tt
      {| wroteHeader := wroteHeader w; Code := Code w;
         HeaderMap := (k, v) :: HeaderMap w; Body := Body w; Flushed := Flushed w |};
  Write b w :=
    let w := Recorder_send http_StatusOK w in
    Returned (Z.of_nat (String.length b), None)
      {| wroteHeader := wroteHeader w; Code := Code w;
         HeaderMap := HeaderMap w; Body := Body w +:+ b; Flushed := Flushed w |};
  WriteHeader := Recorder_WriteHeader;
  implements i := String.eqb i "http.Flusher";
  Optional_call _ w :=
    let w := Recorder_send http_StatusOK w in
    Returned 0
      {| wroteHeader := wroteHeader w; Code := Code w;
         HeaderMap := HeaderMap w; Body := Body w; Flushed := true |} }.

Definition NewRecorder : Recorder :=
  {| wroteHeader := false; Code := http_StatusOK; HeaderMap := []; Body := "";
     Flushed := false |}.

End httpx.

(** ** Package [model]: conversations *)
Module model.

Variant RoleKind : Type := RoleUser | RoleAssistant.

Record Message : Type := {
  Role : RoleKind;
  Content : string }.

Record Conversation : Type := {
  Title : string;
  Messages : list Message }.

(** [conversation.Title = title] *)
Definition set_Title (c : Conversation) (title : string) : Conversation :=
  {| Title := title; Messages := Messages c |}.

Definition RoleKind_eqb (a b : RoleKind) : bool :=
  match a, b with
  | RoleUser, RoleUser | RoleAssistant, RoleAssistant => true
  | _, _ => false
  end.

End model.

(** ** The [Title] method of the assistant (README.md, lines 52-96) *)
Module assistant.
Import model.

Variant ChatMessage : Type :=
| openai_SystemMessage (content : string)
| openai_UserMessage (content : string).

Record ChatCompletionNewParams : Type := {
  Model : string;
  ChatMessages : list ChatMessage }.

(** A [*openai.ChatCompletion], by the [Message.Content] of its choices. *)
Record ChatCompletion : Type := {
  Choices : list string }.

(** [a.cli.Chat.Completions.New]: the remote model. *)
Definition Client : Type :=
  Context -> ChatCompletionNewParams -> ChatCompletion * error.

Definition openai_ChatModelGPT4_1 : string := "gpt-4.1".

Definition system_prompt : string :=
"You generate concise conversation titles.

Rules:
- Output ONLY a short noun phrase summarizing the user's first message.
- Do NOT answer the question.
- Do NOT include quotes.
- Maximum 6 words.".

Definition newline : string := String (ascii_of_nat 10) EmptyString.

(** The cutset of line 88: space, tab, carriage return, newline, hyphen,
    double quote, single quote. *)
Definition title_cutset : string :=
  string_of (map ascii_of_nat [32; 9; 13; 10; 45; 34; 39]%nat).

(** The fallback of lines 83 and 91. *)
Definition title_fallback : string := "New conversation".

(** The loop of lines 54-59: the content of the first user message that is
    not blank, [""] when there is none. *)
Fixpoint first_user_message (ms : list Message) : string :=
  match ms with
  | [] => ""
  | m :: ms' =>
    if RoleKind_eqb (Role m) RoleUser
       && negb (String.eqb (strings.TrimSpace (Content m)) "")
    then Content m
    else first_user_message ms'
  end.

(** Lines 82-96, on the response of the model. The snippet stops after the
    cut to 80 bytes; the cleaned title is what is returned then ("Post-process
    the result (trim spaces, remove quotes/newlines, enforce a max length)"). *)
Definition clean_title (resp : ChatCompletion) (err : error) : string * error :=
  if negb (is_nil err) || (List.length (Choices resp) =? 0)%nat
  then (title_fallback, None)
  else
    let title := nth 0 (Choices resp) "" in
    let title := strings.ReplaceAll title newline " " in
    let title := strings.Trim title title_cutset in
    if String.eqb title "" then (title_fallback, None)
    else
      let title :=
        if (80 <? String.length title)%nat then string_of (take 80 (bytes_of title))
        else title in
      (title, None).

(** [Title(ctx, conv)]; [None] is the run-time panic of [conv.Messages[0]] on a
    conversation without messages. *)
Definition Title (cli : Client) (ctx : Context) (conv : Conversation)
  : option (string * error) :=
  let firstUserMessage := first_user_message (Messages conv) in
  firstUserMessage ←
    (if String.eqb firstUserMessage ""
     then Content <$> head (Messages conv)
     else Some firstUserMessage);
  let system := openai_SystemMessage system_prompt in
  let user := openai_UserMessage firstUserMessage in
  let '(resp, err) :=
    cli ctx {| Model := openai_ChatModelGPT4_1; ChatMessages := [system; user] |} in
  Some (clean_title resp err).

End assistant.

(** ** The orchestration of [StartConversation] (README.md, lines 151-187) *)
Module chat.
Import model.

(** [s.assist]: the two remote operations, by what a call returns. *)
Record Assistant : Type := {
  assist_Title : Context -> Conversation -> string * error;
  assist_Reply : Context -> Conversation -> string * error }.

(** The fallback of line 163. *)
Definition untitled : string := "Untitled conversation".

(** The condition of line 161. *)
Definition title_failed (title : string) (err : error) : bool :=
  negb (is_nil err) || String.eqb (strings.TrimSpace title) "".

(** Where the orchestrating routine stands, with its local variables. *)
Inductive MainPC : Type :=
| M_go_title                                     (* line 159 *)
| M_go_reply                                     (* line 170 *)
| M_recv_title                                   (* line 179 *)
| M_recv_reply (title : string)                  (* line 180 *)
| M_if_err (title : string) (replyResult : string * error)   (* line 181 *)
| M_returned (err : GoError)                     (* line 182, done *)
| M_reply (title : string) (replyResult : string * error)    (* line 184 *)
| M_set_title (title reply : string)             (* line 186 *)
| M_end (title reply : string).                  (* past line 186 *)

(** Where the goroutine of lines 159-167 stands. *)
Inductive TitlePC : Type :=
| T_unborn
| T_call                                         (* line 160 *)
| T_if (title : string) (err : error)            (* line 161 *)
| T_log (title : string) (err : error)           (* line 162 *)
| T_send_untitled                                (* line 163 *)
| T_send (title : string)                        (* line 166 *)
| T_done.

(** Where the goroutine of lines 170-176 stands. *)
Inductive ReplyPC : Type :=
| R_unborn
| R_call                                         (* line 171 *)
| R_send (reply : string) (err : error)          (* line 172 *)
| R_done.

(** A record of [slog.ErrorContext]. *)
Record LogRecord : Type := {
  log_msg : string;
  log_error : error }.

(** The state of one run: the three routines, the two channels (each made
    with capacity 1, oldest value first), the conversation the pointer
    [conversation] refers to, which all three routines share, and the log. *)
Record St : Type := {
  main : MainPC;
  gtitle : TitlePC;
  greply : ReplyPC;
  titleCh : list string;
  replyCh : list (string * error);
  conversation : Conversation;
  logged : list LogRecord }.

Definition chan_cap : nat := 1.

(** The state after lines 152-156, both channels made and empty. *)
Definition init (conv : Conversation) : St :=
  {| main := M_go_title; gtitle := T_unborn; greply := R_unborn;
     titleCh := []; replyCh := []; conversation := conv; logged := [] |}.

Variant Tid : Type := Main | TitleG | ReplyG.

Definition set_main (st : St) (pc : MainPC) : St :=
  {| main := pc; gtitle := gtitle st; greply := greply st;
     titleCh := titleCh st; replyCh := replyCh st;
     conversation := conversation st; logged := logged st |}.

Definition set_gtitle (st : St) (pc : TitlePC) : St :=
  {| main := main st; gtitle := pc; greply := greply st;
     titleCh := titleCh st; replyCh := replyCh st;
     conversation := conversation st; logged := logged st |}.

Definition set_greply (st : St) (pc : ReplyPC) : St :=
  {| main := main st; gtitle := gtitle st; greply := pc;
     titleCh := titleCh st; replyCh := replyCh st;
     conversation := conversation st; logged := logged st |}.

Definition set_titleCh (st : St) (ch : list string) : St :=
  {| main := main st; gtitle := gtitle st; greply := greply st;
     titleCh := ch; replyCh := replyCh st;
     conversation := conversation st; logged := logged st |}.

Definition set_replyCh (st : St) (ch : list (string * error)) : St :=
  {| main := main st; gtitle := gtitle st; greply := greply st;
     titleCh := titleCh st; replyCh := ch;
     conversation := conversation st; logged := logged st |}.

Definition set_conversation (st : St) (c : Conversation) : St :=
  {| main := main st; gtitle := gtitle st; greply := greply st;
     titleCh := titleCh st; replyCh := replyCh st;
     conversation := c; logged := logged st |}.

Definition add_log (st : St) (r : LogRecord) : St :=
  {| main := main st; gtitle := gtitle st; greply := greply st;
     titleCh := titleCh st; replyCh := replyCh st;
     conversation := conversation st; logged := logged st ++ [r] |}.

(** [ch <- v] on a channel of capacity 1: [None] while the buffer is full. *)
Definition chan_send {A} (ch : list A) (v : A) : option (list A) :=
  if (List.length ch <? chan_cap)%nat then Some (ch ++ [v]) else None.

(** [<-ch]: [None] while the buffer is empty. *)
Definition chan_recv {A} (ch : list A) : option (A * list A) :=
  match ch with
  | [] => None
  | v :: ch' => Some (v, ch')
  end.

(** One step of the orchestrating routine; [None] when it is blocked or done. *)
Definition step_main (st : St) : option St :=
  match main st with
  | M_go_title => Some (set_gtitle (set_main st M_go_reply) T_call)
  | M_go_reply => Some (set_greply (set_main st M_recv_title) R_call)
  | M_recv_title =>
    '(title, ch) ← chan_recv (titleCh st);
    Some (set_titleCh (set_main st (M_recv_reply title)) ch)
  | M_recv_reply title =>
    '(replyResult, ch) ← chan_recv (replyCh st);
    Some (set_replyCh (set_main st (M_if_err title replyResult)) ch)
  | M_if_err title replyResult =>
    match snd replyResult with
    | Some err => Some (set_main st (M_returned (twirp_InternalErrorWith err)))
    | None => Some (set_main st (M_reply title replyResult))
    end
  | M_reply title replyResult =>
    Some (set_main st (M_set_title title (fst replyResult)))
  | M_set_title title reply =>
    Some (set_conversation (set_main st (M_end title reply))
            (set_Title (conversation st) title))
  | M_returned _ | M_end _ _ => None
  end.

(** One step of the title goroutine. *)
Definition step_title (a : Assistant) (ctx : Context) (st : St) : option St :=
  match gtitle st with
  | T_unborn | T_done => None
  | T_call =>
    let '(title, err) := assist_Title a ctx (conversation st) in
    Some (set_gtitle st (T_if title err))
  | T_if title err =>
    if title_failed title err then Some (set_gtitle st (T_log title err))
    else Some (set_gtitle st (T_send title))
  | T_log title err =>
    Some (add_log (set_gtitle st T_send_untitled)
            {| log_msg := "Failed to generate conversation title"; log_error := err |})
  | T_send_untitled =>
    ch ← chan_send (titleCh st) untitled;
    Some (set_titleCh (set_gtitle st T_done) ch)
  | T_send title =>
    ch ← chan_send (titleCh st) title;
    Some (set_titleCh (set_gtitle st T_done) ch)
  end.

(** One step of the reply goroutine. *)
Definition step_reply (a : Assistant) (ctx : Context) (st : St) : option St :=
  match greply st with
  | R_unborn | R_done => None
  | R_call =>
    let '(reply, err) := assist_Reply a ctx (conversation st) in
    Some (set_greply st (R_send reply err))
  | R_send reply err =>
    ch ← chan_send (replyCh st) (reply, err);
    Some (set_replyCh (set_greply st R_done) ch)
  end.

Definition step (a : Assistant) (ctx : Context) (t : Tid) (st : St) : option St :=
  match t with
  | Main => step_main st
  | TitleG => step_title a ctx st
  | ReplyG => step_reply a ctx st
  end.

(** The scheduler may run any routine that can move. *)
Definition Step (a : Assistant) (ctx : Context) (st st' : St) : Prop :=
  exists t, step a ctx t st = Some st'.

(** A run under a given schedule; a routine that cannot move is passed over. *)
Fixpoint run (a : Assistant) (ctx : Context) (sched : list Tid) (st : St) : St :=
  match sched with
  | [] => st
  | t :: sched' =>
    match step a ctx t st with
    | Some st' => run a ctx sched' st'
    | None => run a ctx sched' st
    end
  end.

(** What the snippet leaves behind: [Failed err] for the [return nil, err] of
    line 182, no conversation and the error; [Joined conv reply] past line
    186, the conversation with its title set and the reply in the local
    [reply] (the README stops there, before the reply is stored and the
    conversation returned). *)
Variant Outcome : Type :=
| Failed (err : GoError)
| Joined (conv : Conversation) (reply : string).

Definition outcome (st : St) : option Outcome :=
  match main st with
  | M_returned err => Some (Failed err)
  | M_end _ reply => Some (Joined (conversation st) reply)
  | _ => None
  end.

(** Modelled from the spec: the end of [StartConversation] past line 186,
    which README.md does not show. Section 4.4, step 5: "Otherwise, the
    conversation is updated with the produced title and reply, and the
    updated conversation is returned"; section 5: "the conversation's
    title/reply fields are mutated exactly once, by the orchestrating routine
    itself, only after both results are in hand". The conversation returned
    has the title and the messages the shared conversation has past line 186,
    and the local [reply] of line 184 as its reply. *)
Record ReturnedConversation : Type := {
  returned_Title : string;
  returned_Reply : string;
  returned_Messages : list Message }.

Definition returned_conversation (st : St) : option ReturnedConversation :=
  match main st with
  | M_end _ reply =>
    Some {| returned_Title := Title (conversation st);
            returned_Reply := reply;
            returned_Messages := Messages (conversation st) |}
  | _ => None
  end.

(** The orchestrating routine has reached line 181 or is past it: it has
    looked, or is about to look, at an outcome. *)
Definition inspecting (pc : MainPC) : bool :=
  match pc with
  | M_go_title | M_go_reply | M_recv_title | M_recv_reply _ => false
  | _ => true
  end.

(** A goroutine has delivered: its send is done. *)
Definition title_delivered (st : St) : bool :=
  match gtitle st with T_done => true | _ => false end.

Definition reply_delivered (st : St) : bool :=
  match greply st with R_done => true | _ => false end.

End chat.

(** ** The first version of [Title]: its prompt (README.md, lines 13-18) *)
Module title_v0.
Import model.

(** An [openai.ChatCompletionMessageParamUnion]; [zero_value] is what [make]
    fills a new slice with. *)
Variant MessageParam : Type :=
| zero_value
| openai_AssistantMessage (content : string)
| openai_UserMessage (content : string).

(** The instruction of line 15, as the README prints it. *)
Definition instruction : string := "Generate a concise, descriptive title...".

(** [msgs[i] = v]; [None] is the run-time panic of an index out of range. *)
Definition assign (msgs : list MessageParam) (i : nat) (v : MessageParam)
  : option (list MessageParam) :=
  if (i <? List.length msgs)%nat then Some (<[i := v]> msgs) else None.

(** The loop of lines 16-18, from the index [i] on. *)
Fixpoint fill (ms : list Message) (i : nat) (msgs : list MessageParam)
  : option (list MessageParam) :=
  match ms with
  | [] => Some msgs
  | m :: ms' =>
    msgs' ← assign msgs i (openai_UserMessage (Content m));
    fill ms' (S i) msgs'
  end.

(** Lines 13-18: the messages built for the model; [None] is a panic. *)
Definition prompt (conv : Conversation) : option (list MessageParam) :=
  let msgs := replicate (List.length (Messages conv)) zero_value in
  msgs ← assign msgs 0 (openai_AssistantMessage instruction);
  fill (Messages conv) 0 msgs.

End title_v0.

(** ** The first version of [StartConversation] (README.md, lines 116-127) *)
Module chat_v0.
Import model chat.

(** What the snippet leaves behind: its outcome, the conversation the pointer
    [conversation] refers to, and the log. *)
Record Result : Type := {
  result_outcome : Outcome;
  result_conversation : Conversation;
  result_logged : list LogRecord }.

(** Lines 116-127: the title, then the reply, one after the other. *)
Definition StartConversation (a : Assistant) (ctx : Context) (conv : Conversation)
  : Result :=
  let '(title, err) := assist_Title a ctx conv in
  let logged :=
    if negb (is_nil err)
    then [{| log_msg := "Failed to generate conversation title"; log_error := err |}]
    else [] in
  let conversation := if negb (is_nil err) then conv else set_Title conv title in
  let '(reply, err) := assist_Reply a ctx conversation in
  match err with
  | Some e =>
    {| result_outcome := Failed e;
       result_conversation := conversation; result_logged := logged |}
  | None =>
    {| result_outcome := Joined conversation reply;
       result_conversation := conversation; result_logged := logged |}
  end.

End chat_v0.

(** * Vocabulary of the specification *)

Import httpx model chat.

(** ** Telemetry *)

(** The construction steps of [InitTelemetry] that can fail. *)
Variant Stage : Type := ResourceStage | MetricExporterStage | TraceExporterStage.

Definition service_resource (sdk : SDK) (ctx : Context) (serviceName : string)
  : Resource * error :=
  resource_New sdk ctx semconv_SchemaURL
    [attribute_String semconv_ServiceNameKey serviceName].

(** The first construction that fails, with its error. *)
Definition construction_failure (sdk : SDK) (ctx : Context) (serviceName : string)
  : option (Stage * GoError) :=
  match snd (service_resource sdk ctx serviceName) with
  | Some e => Some (ResourceStage, e)
  | None =>
    match snd (stdoutmetric_New sdk true) with
    | Some e => Some (MetricExporterStage, e)
    | None =>
      match snd (stdouttrace_New sdk true) with
      | Some e => Some (TraceExporterStage, e)
      | None => None
      end
    end
  end.

(** The meter provider built from the resource and the metric exporter. *)
Definition built_MeterProvider (sdk : SDK) (ctx : Context) (serviceName : string)
  : MeterProvider :=
  sdkmetric_NewMeterProvider sdk
    {| reader_exporter := fst (stdoutmetric_New sdk true);
       reader_interval := 10 * time_Second |}
    (fst (service_resource sdk ctx serviceName)).

(** The tracer provider built from the resource and the trace exporter. *)
Definition built_TracerProvider (sdk : SDK) (ctx : Context) (serviceName : string)
  : TracerProvider :=
  sdktrace_NewTracerProvider sdk (fst (stdouttrace_New sdk true))
    (fst (service_resource sdk ctx serviceName)).

(** The events a call added to the world [w], given the world [w'] after it. *)
Definition added (w w' : World) (evs : list Event) : Prop :=
  events w' = events w ++ evs.

(** One invocation of a shutdown function attempts both shutdowns, the trace
    provider first, and returns the error of the first when it fails. *)
Definition attempts_both_shutdowns (sdk : SDK) (tp : TracerProvider)
    (mp : MeterProvider) (sd : Shutdown) (ctx : Context) (w : World) : Prop :=
  added w (snd (sd ctx w)) [EvTracerShutdown tp ctx; EvMeterShutdown mp ctx]
  /\ forall e, TracerProvider_Shutdown sdk tp ctx (events w) = Some e ->
               fst (sd ctx w) = Some e.

(** A failed initialisation has registered neither provider. *)
Definition registers_nothing_on_failure (sdk : SDK) (ctx : Context)
    (serviceName : string) (w : World) : Prop :=
  forall e, snd (fst (InitTelemetry sdk ctx serviceName w)) = Some e ->
    globalMeterProvider (snd (InitTelemetry sdk ctx serviceName w)) = globalMeterProvider w
    /\ globalTracerProvider (snd (InitTelemetry sdk ctx serviceName w)) = globalTracerProvider w.

(** An SDK on which every call succeeds, in a process whose environment
    names a deployment, and two on which one call fails. *)
Definition sdk_ok : SDK :=
  {| resource_New := fun _ url attrs =>
       ({| res_schemaURL := url; res_attributes := attrs |}, None);
     stdoutmetric_New := fun pretty => (stdoutmetric_Exporter pretty, None);
     stdouttrace_New := fun pretty => (stdouttrace_Exporter pretty, None);
     sdkmetric_NewMeterProvider := fun reader res =>
       {| mp_reader := reader;
          mp_resource :=
            {| res_schemaURL := res_schemaURL res;
               res_attributes :=
                 attribute_String "deployment.environment" "staging"
                   :: res_attributes res |} |};
     sdktrace_NewTracerProvider := fun exp res =>
       {| tp_batcher := exp;
          tp_resource :=
            {| res_schemaURL := res_schemaURL res;
               res_attributes :=
                 attribute_String "deployment.environment" "staging"
                   :: res_attributes res |} |};
     TracerProvider_Shutdown := fun _ _ _ => None;
     MeterProvider_Shutdown := fun _ _ _ => None |}.

Definition sdk_trace_shutdown_fails : SDK :=
  {| resource_New := resource_New sdk_ok;
     stdoutmetric_New := stdoutmetric_New sdk_ok;
     sdkmetric_NewMeterProvider := sdkmetric_NewMeterProvider sdk_ok;
     sdktrace_NewTracerProvider := sdktrace_NewTracerProvider sdk_ok;
     stdouttrace_New := stdouttrace_New sdk_ok;
     TracerProvider_Shutdown := fun _ _ _ => Some (errors_New "context deadline exceeded");
     MeterProvider_Shutdown := fun _ _ _ => None |}.

Definition sdk_trace_exporter_fails : SDK :=
  {| resource_New := resource_New sdk_ok;
     stdoutmetric_New := stdoutmetric_New sdk_ok;
     sdkmetric_NewMeterProvider := sdkmetric_NewMeterProvider sdk_ok;
     sdktrace_NewTracerProvider := sdktrace_NewTracerProvider sdk_ok;
     stdouttrace_New := fun pretty =>
       (stdouttrace_Exporter pretty, Some (errors_New "stdouttrace: bad option"));
     TracerProvider_Shutdown := fun _ _ _ => None;
     MeterProvider_Shutdown := fun _ _ _ => None |}.

(** What [InitTelemetry] returns on the SDK whose trace provider fails to shut
    down, and the shutdown function among it. *)
Definition example_init : (option Shutdown * error) * World :=
  InitTelemetry sdk_trace_shutdown_fails context_Background "acai-server" initial_World.

Definition example_shutdown : Shutdown :=
  shutdown_closure sdk_trace_shutdown_fails
    (built_TracerProvider sdk_trace_shutdown_fails context_Background "acai-server")
    (built_MeterProvider sdk_trace_shutdown_fails context_Background "acai-server").

(** ** Metrics *)

(** The wrapper the middleware builds around the writer [w] (line 40). *)
Definition wrapped {W} (w : W) : statusCapturingWriter W :=
  {| inner := w; status := http_StatusOK |}.

(** The codes the handler passes to [WriteHeader], in call order, along its
    run on the writer [w]; a call that panics is among them. *)
Fixpoint header_codes {W} `{ResponseWriter W} (p : HandlerProg) (w : W) : list Z :=
  match p with
  | Return | Panic => []
  | CallHeaderSet k v rest =>
    match Header_Set k v w with
    | Returned _ w' => header_codes rest w'
    | Panicked _ => []
    end
  | CallWriteHeader code rest =>
    code :: match WriteHeader code w with
            | Returned _ w' => header_codes rest w'
            | Panicked _ => []
            end
  | CallWrite body rest =>
    match Write body w with
    | Returned res w' => header_codes (rest res) w'
    | Panicked _ => []
    end
  | CallOptional i rest =>
    if implements W i
    then match Optional_call i w with
         | Returned res w' => header_codes (rest (Some res)) w'
         | Panicked _ => []
         end
    else header_codes (rest None) w
  end.

(** In this request the handler sets no status: along its run under the
    middleware it does not call [WriteHeader]. *)
Definition sets_no_status (next : Handler) {W} `{ResponseWriter W}
    (w : W) (r : Request) : Prop :=
  header_codes (next r) (wrapped w) = [].

(** Under the middleware the handler returns: neither it nor a method it
    calls panics. *)
Definition handler_returns (next : Handler) {W} `{ResponseWriter W}
    (w : W) (r : Request) : bool :=
  returns (ServeHTTP next (wrapped w) r).

(** The status the wrapper holds when the handler is done. *)
Definition captured_status (next : Handler) {W} `{ResponseWriter W}
    (w : W) (r : Request) : Z :=
  status (writer_of (ServeHTTP next (wrapped w) r)).

Definition Instrument_eqb (i j : Instrument) : bool :=
  match i, j with
  | reqCounter, reqCounter | errCounter, errCounter
  | latencyHistogram, latencyHistogram => true
  | _, _ => false
  end.

(** The value of a counter: the sum of the increments recorded on it. *)
Fixpoint counter_total (i : Instrument) (ms : list Measurement) : Z :=
  match ms with
  | [] => 0
  | Int64Counter_Add j _ incr _ :: ms' =>
    (if Instrument_eqb i j then incr else 0) + counter_total i ms'
  | _ :: ms' => counter_total i ms'
  end.

(** The float [f] is exactly the integer [z]. *)
Definition float64_is_int (f : float64) (z : Z) : Prop :=
  match f with
  | S754_zero _ => z = 0
  | S754_finite s m e =>
    if 0 <=? e then z = cond_Zopp s (Zpos m) * 2 ^ e
    else cond_Zopp s (Zpos m) = z * 2 ^ (- e)
  | _ => False
  end.

(** The two readings a request takes are those of a monotonic clock that
    counts nanoseconds in an [int64]. *)
Definition monotonic_at (t : Telemetry) : Prop :=
  0 <= clock t (reads t) /\ clock t (reads t) <= clock t (S (reads t))
  /\ clock t (S (reads t)) < 2 ^ 63.

(** The nanoseconds between the two readings of a request. *)
Definition elapsed (t : Telemetry) : Z :=
  clock t (S (reads t)) - clock t (reads t).

(** The values recorded to the latency histogram, oldest first. *)
Definition latencies (ms : list Measurement) : list float64 :=
  omap (fun m => match m with
                 | Float64Histogram_Record latencyHistogram _ v _ => Some v
                 | _ => None
                 end) ms.

(** A request, a clock that advances by 2.5 ms between readings, a handler
    that answers 500 and one that writes a body without setting a status. *)
Definition example_request : Request :=
  {| Method := "POST";
     URL_Path := "/twirp/acai.chat.ChatService/StartConversation";
     req_Context := context_Background |}.

Definition example_telemetry : Telemetry :=
  {| clock := fun i => 5000000 + Z.of_nat i * 2500000; reads := 0; recorded := [] |}.

Definition failing_handler : Handler :=
  fun _ => CallWriteHeader 500 (CallWrite "internal error" (fun _ => Return)).

Definition plain_handler : Handler :=
  fun _ => CallHeaderSet "Content-Type" "text/plain" (CallWrite "ok" (fun _ => Return)).

(** A handler that answers 500 only when its write fails, one that passes a
    status code no writer of [net/http] accepts, and one that streams: it
    flushes after its write when the writer can flush. *)
Definition cautious_handler : Handler :=
  fun _ => CallWrite "ok" (fun res =>
             match snd res with
             | Some _ => CallWriteHeader 500 Return
             | None => Return
             end).

Definition invalid_status_handler : Handler :=
  fun _ => CallWriteHeader 0 Return.

Definition streaming_handler : Handler :=
  fun _ => CallWrite "chunk" (fun _ => CallOptional "http.Flusher" (fun _ => Return)).

(** The request is counted once and timed once: the request counter is one
    higher after it, and the latency histogram has one more value. *)
Definition counted_once (next : Handler) {W} `{ResponseWriter W}
    (w : W) (r : Request) (t : Telemetry) : Prop :=
  counter_total reqCounter (recorded (snd (MetricsMiddleware next w r t)))
    = counter_total reqCounter (recorded t) + 1
  /\ List.length (latencies (recorded (snd (MetricsMiddleware next w r t))))
     = S (List.length (latencies (recorded t))).

(** ** Strings *)

(** The UTF-8 encoding of a sequence of runes. *)
Definition utf8_of (rs : list Z) : bytes := List.concat (map utf8.EncodeRune rs).

(** The code points with the Unicode property White_Space. *)
Definition space_runes : list Z :=
  [9; 10; 11; 12; 13; 32; 133; 160; 5760; 8192; 8193; 8194; 8195; 8196; 8197;
   8198; 8199; 8200; 8201; 8202; 8232; 8233; 8239; 8287; 12288].

(** A sequence of white-space characters. *)
Definition spaces (rs : list Z) : Prop :=
  Forall (fun r => In r space_runes) rs.

(** A sequence of runes that [unicode.IsSpace] accepts. *)
Definition all_IsSpace (rs : list Z) : Prop :=
  Forall (fun r => unicode.IsSpace r = true) rs.

(** [s] is empty or made of Unicode white space only: it is the UTF-8
    encoding of a sequence of white-space characters. *)
Definition blank (s : string) : Prop :=
  exists rs, spaces rs /\ bytes_of s = utf8_of rs.

(** The response of the model is unusable for a title: the call failed, it
    has no choice, or nothing is left of the first choice once cleaned. *)
Definition no_title_in (resp : assistant.ChatCompletion) (err : error) : Prop :=
  err <> None
  \/ match assistant.Choices resp with
     | [] => True
     | c :: _ =>
       strings.Trim (strings.ReplaceAll c assistant.newline " ") assistant.title_cutset
       = EmptyString
     end.

(** ** Orchestration *)

(** The states a run from [conv] can be in. *)
Definition reachable (a : Assistant) (ctx : Context) (conv : Conversation) (st : St)
  : Prop :=
  rtc (Step a ctx) (init conv) st.

(** The value the title goroutine sends. *)
Definition sent_title (a : Assistant) (ctx : Context) (conv : Conversation) : string :=
  let '(title, err) := assist_Title a ctx conv in
  if title_failed title err then untitled else title.

(** Every run from [conv] ends, and ends with the outcome [o]: no run goes
    on for ever, a state where no routine can move has the outcome [o], and
    such a state is reached. *)
Definition always_ends_with (a : Assistant) (ctx : Context) (conv : Conversation)
    (o : Outcome) : Prop :=
  sn (Step a ctx) (init conv)
  /\ (forall st, reachable a ctx conv st -> nf (Step a ctx) st -> outcome st = Some o)
  /\ exists st, reachable a ctx conv st /\ nf (Step a ctx) st.

(** The outcome the code works towards: the wrapped error of the reply, or
    the conversation titled with what the title goroutine sent, and the reply. *)
Definition expected_outcome (a : Assistant) (ctx : Context) (conv : Conversation)
  : Outcome :=
  match assist_Reply a ctx conv with
  | (_, Some err) => Failed (twirp_InternalErrorWith err)
  | (reply, None) => Joined (set_Title conv (sent_title a ctx conv)) reply
  end.

(** How far the orchestrating routine is, and a bound on the steps each
    routine has left. *)
Definition phase (pc : MainPC) : nat :=
  match pc with
  | M_go_title => 0
  | M_go_reply => 1
  | M_recv_title => 2
  | M_recv_reply _ => 3
  | M_if_err _ _ => 4
  | M_returned _ => 5
  | M_reply _ _ => 5
  | M_set_title _ _ => 6
  | M_end _ _ => 7
  end.

Definition title_left (pc : TitlePC) : nat :=
  match pc with
  | T_unborn => 0
  | T_call => 5
  | T_if _ _ => 4
  | T_log _ _ => 3
  | T_send_untitled => 2
  | T_send _ => 1
  | T_done => 0
  end.

Definition reply_left (pc : ReplyPC) : nat :=
  match pc with
  | R_unborn => 0
  | R_call => 2
  | R_send _ _ => 1
  | R_done => 0
  end.

(** The steps of the orchestrating routine, with those of a goroutine it has
    still to start. *)
Definition main_left (pc : MainPC) : nat :=
  match pc with
  | M_go_title => 7 + title_left T_call + reply_left R_call
  | M_go_reply => 6 + reply_left R_call
  | M_returned _ => 0
  | _ => 7 - phase pc
  end.

Definition steps_left (st : St) : nat :=
  main_left (main st) + title_left (gtitle st) + reply_left (greply st).

(** The orchestrating routine has left the snippet. *)
Definition returned (pc : MainPC) : bool :=
  match pc with M_returned _ | M_end _ _ => true | _ => false end.

(** What holds of every state of a run from [conv]: the title goroutine, the
    reply goroutine and the orchestrating routine hold the values the two
    calls returned, a channel holds a value exactly between its send and its
    receive, and the conversation is the one given until line 186. *)
Definition title_inv (a : Assistant) (ctx : Context) (conv : Conversation) (st : St)
  : Prop :=
  match gtitle st with
  | T_unborn => phase (main st) = 0 /\ titleCh st = []
  | T_call => 1 <= phase (main st) <= 2 /\ titleCh st = []
  | T_if title err =>
    1 <= phase (main st) <= 2 /\ titleCh st = []
    /\ (title, err) = assist_Title a ctx conv
  | T_log title err =>
    1 <= phase (main st) <= 2 /\ titleCh st = []
    /\ (title, err) = assist_Title a ctx conv /\ title_failed title err = true
  | T_send_untitled =>
    1 <= phase (main st) <= 2 /\ titleCh st = []
    /\ sent_title a ctx conv = untitled
  | T_send title =>
    1 <= phase (main st) <= 2 /\ titleCh st = []
    /\ sent_title a ctx conv = title
  | T_done =>
    (1 <= phase (main st) <= 2 /\ titleCh st = [sent_title a ctx conv])
    \/ (3 <= phase (main st) /\ titleCh st = [])
  end%nat.

Definition reply_inv (a : Assistant) (ctx : Context) (conv : Conversation) (st : St)
  : Prop :=
  match greply st with
  | R_unborn => phase (main st) <= 1 /\ replyCh st = []
  | R_call => 2 <= phase (main st) <= 3 /\ replyCh st = []
  | R_send reply err =>
    2 <= phase (main st) <= 3 /\ replyCh st = []
    /\ (reply, err) = assist_Reply a ctx conv
  | R_done =>
    (2 <= phase (main st) <= 3 /\ replyCh st = [assist_Reply a ctx conv])
    \/ (4 <= phase (main st) /\ replyCh st = [])
  end%nat.

Definition main_inv (a : Assistant) (ctx : Context) (conv : Conversation) (st : St)
  : Prop :=
  match main st with
  | M_go_title | M_go_reply | M_recv_title => conversation st = conv
  | M_recv_reply title =>
    conversation st = conv /\ title = sent_title a ctx conv
  | M_if_err title replyResult =>
    conversation st = conv /\ title = sent_title a ctx conv
    /\ replyResult = assist_Reply a ctx conv
  | M_returned err =>
    conversation st = conv
    /\ exists e, snd (assist_Reply a ctx conv) = Some e /\ err = twirp_InternalErrorWith e
  | M_reply title replyResult =>
    conversation st = conv /\ title = sent_title a ctx conv
    /\ replyResult = assist_Reply a ctx conv /\ snd (assist_Reply a ctx conv) = None
  | M_set_title title reply =>
    conversation st = conv /\ title = sent_title a ctx conv
    /\ reply = fst (assist_Reply a ctx conv) /\ snd (assist_Reply a ctx conv) = None
  | M_end title reply =>
    conversation st = set_Title conv (sent_title a ctx conv)
    /\ title = sent_title a ctx conv
    /\ reply = fst (assist_Reply a ctx conv) /\ snd (assist_Reply a ctx conv) = None
  end.

Definition Inv (a : Assistant) (ctx : Context) (conv : Conversation) (st : St) : Prop :=
  main_inv a ctx conv st /\ title_inv a ctx conv st /\ reply_inv a ctx conv st.

(** An assistant by the results of its two calls, a conversation, and the two
    schedules that run one goroutine to its end before the other starts. *)
Definition assistant_of (title : string * error) (reply : string * error) : Assistant :=
  {| assist_Title := fun _ _ => title; assist_Reply := fun _ _ => reply |}.

Definition example_conversation : Conversation :=
  {| Title := "";
     Messages := [{| Role := RoleUser; Content := "What is the weather in Barcelona?" |}] |}.

Definition reply_fails : Assistant :=
  assistant_of ("Barcelona weather", None) ("", Some (errors_New "openai: 503")).

Definition title_blank : Assistant :=
  assistant_of ("   ", None) ("It is sunny in Barcelona.", None).

Definition both_succeed : Assistant :=
  assistant_of ("Barcelona weather", None) ("It is sunny in Barcelona.", None).

Definition title_first : list Tid := [Main; Main; TitleG; TitleG; TitleG; TitleG].
Definition reply_first : list Tid := [Main; Main; ReplyG; ReplyG].

(** A schedule that runs every routine to its end. *)
Definition to_the_end : list Tid :=
  title_first ++ [ReplyG; ReplyG; Main; Main; Main; Main; Main].

(** ** Vocabulary of the further properties *)

(** A call on the wrapper, by what it leaves of the writer inside. *)
Definition unwrap {W A} (c : Call (statusCapturingWriter W) A) : Call W A :=
  match c with
  | Returned a sw => Returned a (inner sw)
  | Panicked sw => Panicked (inner sw)
  end.

(** The handler that does as [p] does when every type assertion of its writer
    to an optional interface fails. *)
Fixpoint denied (p : HandlerProg) : HandlerProg :=
  match p with
  | Return => Return
  | Panic => Panic
  | CallHeaderSet k v rest => CallHeaderSet k v (denied rest)
  | CallWriteHeader code rest => CallWriteHeader code (denied rest)
  | CallWrite body rest => CallWrite body (fun res => denied (rest res))
  | CallOptional i rest => denied (rest None)
  end.

(** The handler finds an optional interface on the writer [w]: along its
    run on [w], a type assertion succeeds. *)
Fixpoint uses_optional {W} `{ResponseWriter W} (p : HandlerProg) (w : W) : bool :=
  match p with
  | Return | Panic => false
  | CallHeaderSet k v rest =>
    match Header_Set k v w with
    | Returned _ w' => uses_optional rest w'
    | Panicked _ => false
    end
  | CallWriteHeader code rest =>
    match WriteHeader code w with
    | Returned _ w' => uses_optional rest w'
    | Panicked _ => false
    end
  | CallWrite body rest =>
    match Write body w with
    | Returned res w' => uses_optional (rest res) w'
    | Panicked _ => false
    end
  | CallOptional i rest => implements W i || uses_optional (rest None) w
  end.

(** Requests served one after the other through the middleware, each with
    its handler and its writer. The server recovers the panic of a handler
    and goes on with the next request. *)
Fixpoint serve_all {W} `{ResponseWriter W} (reqs : list (Handler * W * Request))
  : State Telemetry (list (Call W unit)) :=
  match reqs with
  | [] => ret []
  | (next, w, r) :: reqs' =>
    c <- MetricsMiddleware next w r ;;
    cs <- serve_all reqs' ;;
    ret (c :: cs)
  end.

(** The requests among [reqs] whose handler returns, and those among them
    whose captured status is an error status. *)
Definition returned_requests {W} `{ResponseWriter W} (reqs : list (Handler * W * Request))
  : list (Handler * W * Request) :=
  List.filter (fun '(next, w, r) => handler_returns next w r) reqs.

Definition error_requests {W} `{ResponseWriter W} (reqs : list (Handler * W * Request))
  : list (Handler * W * Request) :=
  List.filter (fun '(next, w, r) => 400 <=? captured_status next w r)
    (returned_requests reqs).

(** A byte of the cutset of line 88. *)
Definition in_cutset (c : ascii) : bool :=
  existsb (Ascii.eqb c) (bytes_of assistant.title_cutset).

(** A message [Title] passes over when it looks for its input: not from the
    user, or blank. *)
Definition passed_over (m : Message) : Prop :=
  Role m <> RoleUser \/ blank (Content m).

(** [input] is what [Title] takes from the messages [ms]: the content of the
    first message of the user that is not blank, and the content of the first
    message of all when there is none. *)
Definition title_input (ms : list Message) (input : string) : Prop :=
  (exists pre m post,
     ms = pre ++ m :: post /\ Forall passed_over pre
     /\ Role m = RoleUser /\ ~ blank (Content m) /\ input = Content m)
  \/ (Forall passed_over ms /\ exists m rest, ms = m :: rest /\ input = Content m).

(** The record the title goroutine logs, and the log a run ends with. *)
Definition title_log_record (err : error) : LogRecord :=
  {| log_msg := "Failed to generate conversation title"; log_error := err |}.

Definition expected_log (a : Assistant) (ctx : Context) (conv : Conversation)
  : list LogRecord :=
  let '(title, err) := assist_Title a ctx conv in
  if title_failed title err then [title_log_record err] else [].

(** The log at each point of the title goroutine. *)
Definition log_inv (a : Assistant) (ctx : Context) (conv : Conversation) (st : St)
  : Prop :=
  match gtitle st with
  | T_unborn | T_call | T_if _ _ | T_log _ _ => logged st = []
  | T_send_untitled => logged st = expected_log a ctx conv
  | T_send _ => logged st = [] /\ expected_log a ctx conv = []
  | T_done => logged st = expected_log a ctx conv
  end.

(** A conversation that opens with a message of the assistant and a blank
    message of the user. *)
Definition untitled_conversation : Conversation :=
  {| Title := "";
     Messages := [{| Role := RoleAssistant; Content := "Hello!" |};
                  {| Role := RoleUser; Content := "  " |};
                  {| Role := RoleUser; Content := "What is the weather in Barcelona?" |}] |}.

(** The shutdown function invoked once for each context of [ctxs], in order. *)
Fixpoint invoke_all (sd : Shutdown) (ctxs : list Context) : State World (list error) :=
  match ctxs with
  | [] => ret []
  | ctx :: ctxs' =>
    err <- sd ctx ;;
    errs <- invoke_all sd ctxs' ;;
    ret (err :: errs)
  end.

(** The shutdowns of a tracer provider among the events [evs]. *)
Definition tracer_shutdowns (evs : list Event) : list (TracerProvider * Context) :=
  omap (fun e => match e with
                 | EvTracerShutdown tp ctx => Some (tp, ctx)
                 | _ => None
                 end) evs.

(** A model that answers every request with the same title, spaces and a
    hyphen around it. *)
Definition example_client : assistant.Client :=
  fun _ _ => ({| assistant.Choices := ["  - Barcelona weather  "] |}, None).

(** No run from [conv] ever logs anything; every run from [conv] has the log
    [l] when it has ended. *)
Definition never_logs (a : Assistant) (ctx : Context) (conv : Conversation) : Prop :=
  forall st, reachable a ctx conv st -> logged st = [].

Definition ends_with_log (a : Assistant) (ctx : Context) (conv : Conversation)
    (l : list LogRecord) : Prop :=
  forall st, reachable a ctx conv st -> nf (Step a ctx) st -> logged st = l.

(** A model whose every call fails. *)
Definition failing_client : assistant.Client :=
  fun _ _ => ({| assistant.Choices := [] |}, Some (errors_New "openai: 503")).

(** The assistant whose title operation is the method [Title] over the model
    [cli], on conversations with messages, and whose reply is [reply]. *)
Definition assistant_over (cli : assistant.Client) (reply : string * error) : Assistant :=
  {| assist_Title := fun ctx conv =>
       default (EmptyString, None) (assistant.Title cli ctx conv);
     assist_Reply := fun _ _ => reply |}.

(** The reply operation does not read the title of the conversation. *)
Definition reply_ignores_title (a : Assistant) (ctx : Context) (conv : Conversation)
  : Prop :=
  forall title, assist_Reply a ctx (set_Title conv title) = assist_Reply a ctx conv.

(** * Telemetry lifecycle *)

Lemma InitTelemetry_success sdk ctx serviceName w :
  construction_failure sdk ctx serviceName = None ->
  InitTelemetry sdk ctx serviceName w =
    (Some (shutdown_closure sdk (built_TracerProvider sdk ctx serviceName)
             (built_MeterProvider sdk ctx serviceName)), None,
     {| globalMeterProvider := Some (built_MeterProvider sdk ctx serviceName);
        globalTracerProvider := Some (built_TracerProvider sdk ctx serviceName);
        events := ((events w ++ [EvSetMeterProvider (built_MeterProvider sdk ctx serviceName)])
                     ++ [EvSetTracerProvider (built_TracerProvider sdk ctx serviceName)])
                     ++ [EvSlogInfo "OpenTelemetry initialized"] |}).
Proof.
  unfold construction_failure, InitTelemetry, built_TracerProvider,
    built_MeterProvider, service_resource.
  destruct (resource_New _ _ _ _) as [res [e|]]; [done|].
  destruct (stdoutmetric_New _ _) as [mexp [e|]]; [done|].
  destruct (stdouttrace_New _ _) as [texp [e|]]; [done|].
  reflexivity.
Qed.

Lemma InitTelemetry_returns_closure sdk ctx serviceName w sd err w' :
  InitTelemetry sdk ctx serviceName w = (Some sd, err, w') ->
  construction_failure sdk ctx serviceName = None.
Proof.
  unfold construction_failure, InitTelemetry, service_resource.
  destruct (resource_New _ _ _ _) as [res [e|]]; [done|].
  destruct (stdoutmetric_New _ _) as [mexp [e|]]; [done|].
  destruct (stdouttrace_New _ _) as [texp [e|]]; [done|].
  reflexivity.
Qed.

Lemma shutdown_closure_trace_fails sdk tp mp ctx w e :
  TracerProvider_Shutdown sdk tp ctx (events w) = Some e ->
  shutdown_closure sdk tp mp ctx w =
    (Some e, {| globalMeterProvider := globalMeterProvider w;
                globalTracerProvider := globalTracerProvider w;
                events := events w ++ [EvTracerShutdown tp ctx] |}).
Proof.
  intros He. unfold shutdown_closure, bind, tp_Shutdown. rewrite He. reflexivity.
Qed.

Lemma shutdown_closure_trace_ok sdk tp mp ctx w :
  TracerProvider_Shutdown sdk tp ctx (events w) = None ->
  shutdown_closure sdk tp mp ctx w =
    (MeterProvider_Shutdown sdk mp ctx (events w ++ [EvTracerShutdown tp ctx]),
     {| globalMeterProvider := globalMeterProvider w;
        globalTracerProvider := globalTracerProvider w;
        events := (events w ++ [EvTracerShutdown tp ctx]) ++ [EvMeterShutdown mp ctx] |}).
Proof.
  intros He. unfold shutdown_closure, bind, tp_Shutdown. rewrite He. reflexivity.
Qed.

(** C1 (as the code has it). For every invocation of the shutdown function
    that [InitTelemetry] returns, on the providers it registered: the trace
    provider is shut down first; when that fails, its error is returned and
    the metric provider is not shut down; when it succeeds, the metric
    provider is shut down next and the result of that is returned. *)
Theorem shutdown_trace_then_metric sdk ctx0 serviceName w0 sd err w1 ctx w :
  InitTelemetry sdk ctx0 serviceName w0 = (Some sd, err, w1) ->
  exists tp mp,
    globalTracerProvider w1 = Some tp /\ globalMeterProvider w1 = Some mp /\
    match TracerProvider_Shutdown sdk tp ctx (events w) with
    | Some e =>
      fst (sd ctx w) = Some e
      /\ added w (snd (sd ctx w)) [EvTracerShutdown tp ctx]
    | None =>
      fst (sd ctx w) =
        MeterProvider_Shutdown sdk mp ctx (events w ++ [EvTracerShutdown tp ctx])
      /\ added w (snd (sd ctx w)) [EvTracerShutdown tp ctx; EvMeterShutdown mp ctx]
    end.
Proof.
  intros Hinit.
  pose proof (InitTelemetry_returns_closure _ _ _ _ _ _ _ Hinit) as Hok.
  rewrite (InitTelemetry_success _ _ _ w0 Hok) in Hinit.
  injection Hinit as <- <- <-.
  eexists _, _. split; [reflexivity|]. split; [reflexivity|].
  destruct (TracerProvider_Shutdown _ _ _ _) as [e|] eqn:He.
  - rewrite (shutdown_closure_trace_fails _ _ _ _ _ _ He). done.
  - rewrite (shutdown_closure_trace_ok _ _ _ _ _ He). split; [done|].
    unfold added. simpl. by rewrite <- app_assoc.
Qed.

Example shutdown_trace_then_metric_witness :
  exists tp mp,
    globalTracerProvider (snd example_init) = Some tp
    /\ globalMeterProvider (snd example_init) = Some mp
    /\ fst (example_shutdown context_Background (snd example_init))
       = Some (errors_New "context deadline exceeded")
    /\ added (snd example_init)
         (snd (example_shutdown context_Background (snd example_init)))
         [EvTracerShutdown tp context_Background].
Proof.
  exact (shutdown_trace_then_metric sdk_trace_shutdown_fails context_Background
           "acai-server" initial_World example_shutdown None (snd example_init)
           context_Background (snd example_init) eq_refl).
Defined.

(** C1, as stated, fails: on an SDK whose trace provider fails to shut down,
    the function [InitTelemetry] returned does not attempt both shutdowns. *)
Lemma shutdown_skips_metric_after_trace_failure :
  fst (fst example_init) = Some example_shutdown
  /\ ~ attempts_both_shutdowns sdk_trace_shutdown_fails
         (built_TracerProvider sdk_trace_shutdown_fails context_Background "acai-server")
         (built_MeterProvider sdk_trace_shutdown_fails context_Background "acai-server")
         example_shutdown context_Background (snd example_init).
Proof.
  split; [reflexivity|].
  intros [Hadded _]. unfold added in Hadded. simpl in Hadded. discriminate.
Qed.

(** C5 (as the code has it). For every construction failure inside
    [InitTelemetry], the call aborts and returns that error with a [nil]
    shutdown function, and no tracer provider has been registered. When the
    resource or the metric exporter fails, nothing at all has been registered
    or done. When the trace exporter fails, the meter provider has already
    been registered process-wide, and stays so. *)
Theorem InitTelemetry_aborts_on_failure sdk ctx serviceName w stage e :
  construction_failure sdk ctx serviceName = Some (stage, e) ->
  fst (InitTelemetry sdk ctx serviceName w) = (None, Some e)
  /\ globalTracerProvider (snd (InitTelemetry sdk ctx serviceName w))
     = globalTracerProvider w
  /\ match stage with
     | ResourceStage | MetricExporterStage =>
       snd (InitTelemetry sdk ctx serviceName w) = w
     | TraceExporterStage =>
       globalMeterProvider (snd (InitTelemetry sdk ctx serviceName w))
         = Some (built_MeterProvider sdk ctx serviceName)
       /\ added w (snd (InitTelemetry sdk ctx serviceName w))
            [EvSetMeterProvider (built_MeterProvider sdk ctx serviceName)]
     end.
Proof.
  unfold construction_failure, InitTelemetry, built_MeterProvider, service_resource.
  destruct (resource_New _ _ _ _) as [res [e1|]]; simpl.
  { intros [= <- <-]. done. }
  destruct (stdoutmetric_New _ _) as [mexp [e2|]]; simpl.
  { intros [= <- <-]. done. }
  destruct (stdouttrace_New _ _) as [texp [e3|]]; simpl; [|done].
  intros [= <- <-]. done.
Qed.

Example InitTelemetry_aborts_on_failure_witness :
  fst (InitTelemetry sdk_trace_exporter_fails context_Background "acai-server"
         initial_World)
    = (None, Some (errors_New "stdouttrace: bad option"))
  /\ globalTracerProvider
       (snd (InitTelemetry sdk_trace_exporter_fails context_Background "acai-server"
               initial_World))
     = globalTracerProvider initial_World
  /\ globalMeterProvider
       (snd (InitTelemetry sdk_trace_exporter_fails context_Background "acai-server"
               initial_World))
       = Some (built_MeterProvider sdk_trace_exporter_fails context_Background "acai-server")
     /\ added initial_World
          (snd (InitTelemetry sdk_trace_exporter_fails context_Background "acai-server"
                  initial_World))
          [EvSetMeterProvider
             (built_MeterProvider sdk_trace_exporter_fails context_Background "acai-server")].
Proof.
  apply (InitTelemetry_aborts_on_failure sdk_trace_exporter_fails context_Background
           "acai-server" initial_World TraceExporterStage
           (errors_New "stdouttrace: bad option")).
  reflexivity.
Defined.

(** C5, as stated, fails: when the trace exporter cannot be created, the call
    returns the error with the meter provider registered. *)
Lemma meter_provider_registered_on_trace_exporter_failure :
  ~ registers_nothing_on_failure sdk_trace_exporter_fails context_Background
      "acai-server" initial_World.
Proof.
  intros Hnothing.
  destruct (Hnothing (errors_New "stdouttrace: bad option") eq_refl) as [Hmp _].
  simpl in Hmp. discriminate.
Qed.

(** * Metrics middleware *)

(** ** [float64] of a small integer is exact *)

Lemma digits2_pos_size p : digits2_pos p = Pos.size p.
Proof. induction p; simpl; congruence. Qed.

Lemma digits2_pos_iter_xO p k :
  digits2_pos (Pos.iter xO p k) = (digits2_pos p + k)%positive.
Proof.
  induction k using Pos.peano_ind.
  - simpl. lia.
  - rewrite Pos.iter_succ. simpl. rewrite IHk. lia.
Qed.

Lemma Zpos_iter_xO p k : Zpos (Pos.iter xO p k) = Zpos p * 2 ^ Zpos k.
Proof.
  induction k using Pos.peano_ind.
  - simpl. lia.
  - rewrite Pos.iter_succ, Pos2Z.inj_succ, Z.pow_succ_r by lia.
    rewrite Pos2Z.inj_xO, IHk. lia.
Qed.

Lemma digits2_pos_bound p : Zpos p < 2 ^ 53 -> Zpos (digits2_pos p) <= 53.
Proof.
  intros Hp. rewrite digits2_pos_size.
  pose proof (Pos.size_le p) as Hle.
  destruct (Z.le_gt_cases (Zpos (Pos.size p)) 53) as [|Hgt]; [done|].
  exfalso.
  assert (2 ^ 54 <= 2 ^ Zpos (Pos.size p)) as Hpow by (apply Z.pow_le_mono_r; lia).
  assert (Zpos (2 ^ Pos.size p) <= Zpos (p~0)) as Hle' by lia.
  rewrite Pos2Z.inj_pow in Hle'. lia.
Qed.

Lemma shr_fexp_canonical m e :
  Zpos (digits2_pos m) = 53 -> -1074 <= e ->
  shr_fexp 53 1024 (Zpos m) e loc_Exact =
    ({| shr_m := Zpos m; shr_r := false; shr_s := false |}, e).
Proof.
  intros Hd He. unfold shr_fexp.
  assert (fexp 53 1024 (Zdigits2 (Zpos m) + e) - e = 0) as ->.
  { unfold fexp, emin. simpl Zdigits2. lia. }
  reflexivity.
Qed.

Lemma binary_round_aux_canonical m e :
  Zpos (digits2_pos m) = 53 -> -1074 <= e <= 971 ->
  binary_round_aux 53 1024 false (Zpos m) e loc_Exact = S754_finite false m e.
Proof.
  intros Hd He. unfold binary_round_aux.
  rewrite shr_fexp_canonical by lia. simpl shr_m. simpl loc_of_shr_record.
  simpl round_nearest_even. rewrite shr_fexp_canonical by lia. simpl shr_m.
  destruct (e <=? 1024 - 53) eqn:E; [reflexivity|lia].
Qed.

Lemma float64_of_int64_pos p :
  Zpos p < 2 ^ 53 ->
  exists m e, float64_of_int64 (Zpos p) = S754_finite false m e
              /\ e <= 0 /\ Zpos m = Zpos p * 2 ^ (- e).
Proof.
  intros Hp. pose proof (digits2_pos_bound p Hp) as Hd.
  unfold float64_of_int64, binary_normalize, binary_round, shl_align.
  assert (fexp 53 1024 (Zpos (digits2_pos p) + 0) = Zpos (digits2_pos p) - 53) as ->.
  { unfold fexp, emin. lia. }
  rewrite Z.sub_0_r.
  destruct (Zpos (digits2_pos p) - 53) as [|k|k] eqn:E; [|lia|].
  - exists p, 0. split; [|split; [lia|simpl; lia]].
    apply binary_round_aux_canonical; lia.
  - exists (Pos.iter xO p k), (Zneg k). split; [|split; [lia|]].
    + apply binary_round_aux_canonical; [|lia].
      rewrite digits2_pos_iter_xO. lia.
    + rewrite Zpos_iter_xO. reflexivity.
Qed.

Lemma float64_of_int64_exact z :
  0 <= z < 2 ^ 53 -> float64_is_int (float64_of_int64 z) z.
Proof.
  intros [Hz Hlt]. destruct z as [|p|p]; [reflexivity| |lia].
  destruct (float64_of_int64_pos p Hlt) as (m & e & -> & He & Hm).
  unfold float64_is_int. simpl cond_Zopp.
  destruct (0 <=? e) eqn:E; [|exact Hm].
  assert (e = 0) as -> by lia. simpl in *. lia.
Qed.

(** ** The middleware *)

Lemma wrap64_small z : - 2 ^ 63 <= z < 2 ^ 63 -> wrap64 z = z.
Proof. intros Hz. unfold wrap64. rewrite Z.mod_small; lia. Qed.

Lemma subMono_monotonic t u : 0 <= u -> u <= t -> t < 2 ^ 63 -> subMono t u = t - u.
Proof.
  intros Hu Hle Ht. unfold subMono. rewrite wrap64_small by lia.
  destruct (t - u <? 0) eqn:E1; [lia|]. simpl.
  destruct (t <? u) eqn:E2; [lia|]. by rewrite andb_false_r.
Qed.

Lemma Milliseconds_bounds d :
  0 <= d < 2 ^ 63 -> 0 <= Milliseconds d < 2 ^ 53.
Proof.
  intros [Hd Hlt]. unfold Milliseconds. rewrite Z.quot_div_nonneg by lia.
  split; [apply Z.div_pos; lia|].
  apply Z.div_lt_upper_bound; lia.
Qed.

(** The middleware, in one equation: how it ends and what it records. *)
Lemma MetricsMiddleware_eq next {W} `{ResponseWriter W} (w : W) r t :
  MetricsMiddleware next w r t =
    match ServeHTTP next (wrapped w) r with
    | Panicked sw =>
      (Panicked (inner sw),
       {| clock := clock t; reads := S (reads t); recorded := recorded t |})
    | Returned _ sw =>
      (Returned tt (inner sw),
       {| clock := clock t;
          reads := S (S (reads t));
          recorded :=
            recorded t ++
            [Int64Counter_Add reqCounter (req_Context r) 1
               (request_attrs r (status sw));
             Float64Histogram_Record latencyHistogram (req_Context r)
               (float64_of_int64
                  (Milliseconds (subMono (clock t (S (reads t))) (clock t (reads t)))))
               (request_attrs r (status sw))] ++
            (if 400 <=? status sw
             then [Int64Counter_Add errCounter (req_Context r) 1
                     (request_attrs r (status sw))]
             else []) |})
    end.
Proof.
  unfold MetricsMiddleware, wrapped, bind, time_Now, read_clock.
  destruct (ServeHTTP next _ r) as [[] sw|sw]; [|reflexivity].
  unfold time_Since, read_clock, record, ret, bind. simpl.
  destruct (400 <=? _); simpl; repeat rewrite <- app_assoc; reflexivity.
Qed.

Lemma last_cons_default {A} (d x : A) l : default d (last (x :: l)) = default x (last l).
Proof.
  revert d x. induction l as [|y l IH]; intros d x; [reflexivity|].
  change (last (x :: y :: l)) with (last (y :: l)). by rewrite (IH d), (IH x).
Qed.

(** The status of the wrapper follows the calls of [WriteHeader]. *)
Lemma run_prog_status {W} `{ResponseWriter W} p (sw : statusCapturingWriter W) :
  status (writer_of (run_prog p sw)) = default (status sw) (last (header_codes p sw)).
Proof.
  revert sw.
  induction p as [| |k v rest IH|code rest IH|body rest IH|i rest IH]; intros sw;
    cbn [run_prog header_codes].
  - reflexivity.
  - reflexivity.
  - cbn [Header_Set statusCapturingWriter_ResponseWriter].
    destruct (Header_Set k v (inner sw)) as [[] i|i]; cbn [on_inner]; [|reflexivity].
    by rewrite IH.
  - cbn [WriteHeader statusCapturingWriter_ResponseWriter].
    unfold statusCapturingWriter_WriteHeader.
    rewrite last_cons_default.
    destruct (WriteHeader code (inner sw)) as [[] i|i]; cbn [on_inner]; [|reflexivity].
    by rewrite IH.
  - cbn [Write statusCapturingWriter_ResponseWriter].
    destruct (Write body (inner sw)) as [res i|i]; cbn [on_inner]; [|reflexivity].
    by rewrite IH.
  - cbn [implements statusCapturingWriter_ResponseWriter]. apply IH.
Qed.

Lemma captured_status_200 next {W} `{ResponseWriter W} (w : W) r :
  sets_no_status next w r -> captured_status next w r = 200.
Proof.
  unfold sets_no_status, captured_status, ServeHTTP. intros Hp.
  by rewrite run_prog_status, Hp.
Qed.

Lemma recorded_of_returned next {W} `{ResponseWriter W} (w : W) r t :
  handler_returns next w r = true ->
  recorded (snd (MetricsMiddleware next w r t)) =
    recorded t ++
    [Int64Counter_Add reqCounter (req_Context r) 1
       (request_attrs r (captured_status next w r));
     Float64Histogram_Record latencyHistogram (req_Context r)
       (float64_of_int64
          (Milliseconds (subMono (clock t (S (reads t))) (clock t (reads t)))))
       (request_attrs r (captured_status next w r))] ++
    (if 400 <=? captured_status next w r
     then [Int64Counter_Add errCounter (req_Context r) 1
             (request_attrs r (captured_status next w r))]
     else []).
Proof.
  unfold handler_returns, captured_status. rewrite MetricsMiddleware_eq.
  by destruct (ServeHTTP next (wrapped w) r) as [[] sw|sw].
Qed.

Lemma recorded_of_panicked next {W} `{ResponseWriter W} (w : W) r t :
  handler_returns next w r = false ->
  recorded (snd (MetricsMiddleware next w r t)) = recorded t.
Proof.
  unfold handler_returns. rewrite MetricsMiddleware_eq.
  by destruct (ServeHTTP next (wrapped w) r) as [[] sw|sw].
Qed.

(** C4 (as the code has it). For every request through [MetricsMiddleware]
    whose handler returns, what is recorded is exactly: one [Add] of 1 on the
    request counter, one [Record] on the latency histogram of a value that is
    a non-negative integer, and one [Add] of 1 on the error counter when the
    captured status is at least 400, none when it is below; all with the same
    three attributes: the method, the path and the captured status. For a
    request whose handler panics, nothing is recorded. *)
Theorem MetricsMiddleware_records next {W} `{ResponseWriter W} (w : W) r t :
  monotonic_at t ->
  if handler_returns next w r
  then
    exists (attrs : list KeyValue) (v : float64) (ms : Z),
      attrs = [attribute_String "http.method" (Method r);
               attribute_String "http.route" (URL_Path r);
               attribute_Int "http.status_code" (captured_status next w r)]
      /\ recorded (snd (MetricsMiddleware next w r t)) =
           recorded t ++
           [Int64Counter_Add reqCounter (req_Context r) 1 attrs;
            Float64Histogram_Record latencyHistogram (req_Context r) v attrs] ++
           (if 400 <=? captured_status next w r
            then [Int64Counter_Add errCounter (req_Context r) 1 attrs]
            else [])
      /\ float64_is_int v ms /\ 0 <= ms
  else recorded (snd (MetricsMiddleware next w r t)) = recorded t.
Proof.
  intros (H0 & Hle & Hmax).
  destruct (handler_returns next w r) eqn:Hret.
  - rewrite recorded_of_returned by done.
    eexists _, _, _. split; [reflexivity|]. split; [reflexivity|].
    rewrite subMono_monotonic by lia.
    pose proof (Milliseconds_bounds (clock t (S (reads t)) - clock t (reads t))) as Hms.
    split; [apply float64_of_int64_exact|]; lia.
  - by apply recorded_of_panicked.
Qed.

Example MetricsMiddleware_records_witness :
  exists (attrs : list KeyValue) (v : float64) (ms : Z),
    attrs = [attribute_String "http.method" "POST";
             attribute_String "http.route"
               "/twirp/acai.chat.ChatService/StartConversation";
             attribute_Int "http.status_code" 500]
    /\ recorded (snd (MetricsMiddleware failing_handler NewRecorder example_request
                        example_telemetry)) =
         recorded example_telemetry ++
         [Int64Counter_Add reqCounter context_Background 1 attrs;
          Float64Histogram_Record latencyHistogram context_Background v attrs] ++
         [Int64Counter_Add errCounter context_Background 1 attrs]
    /\ float64_is_int v ms /\ 0 <= ms.
Proof.
  assert (monotonic_at example_telemetry) as Hclock
    by (unfold monotonic_at; simpl; lia).
  exact (MetricsMiddleware_records failing_handler NewRecorder example_request
           example_telemetry Hclock).
Defined.

(** C4, as stated, fails: a request whose handler passes [WriteHeader] a
    status code that the writer refuses with a panic goes through the
    middleware without being counted or timed. *)
Lemma panicking_request_is_not_counted :
  ~ counted_once invalid_status_handler NewRecorder example_request example_telemetry.
Proof.
  intros [Hcount _]. vm_compute in Hcount. discriminate.
Qed.

(** C6. For every request whose handler does not call [WriteHeader] before
    it returns, the status in the recorded attributes is 200, and the error
    counter, which is decided on the same status, is not incremented: what is
    recorded is the request and its latency, each with the method, the path
    and the status 200. (Should the handler panic without having called
    [WriteHeader], the wrapper holds 200 as well, and nothing is recorded.) *)
Theorem unset_status_is_200 next {W} `{ResponseWriter W} (w : W) r t :
  sets_no_status next w r ->
  captured_status next w r = 200
  /\ if handler_returns next w r
     then
       exists v : float64,
         recorded (snd (MetricsMiddleware next w r t)) =
           recorded t ++
           [Int64Counter_Add reqCounter (req_Context r) 1
              [attribute_String "http.method" (Method r);
               attribute_String "http.route" (URL_Path r);
               attribute_Int "http.status_code" 200];
            Float64Histogram_Record latencyHistogram (req_Context r) v
              [attribute_String "http.method" (Method r);
               attribute_String "http.route" (URL_Path r);
               attribute_Int "http.status_code" 200]]
     else recorded (snd (MetricsMiddleware next w r t)) = recorded t.
Proof.
  intros Hnext. pose proof (captured_status_200 next w r Hnext) as Hs.
  split; [exact Hs|].
  destruct (handler_returns next w r) eqn:Hret.
  - rewrite recorded_of_returned by done. rewrite Hs. simpl. eexists. reflexivity.
  - by apply recorded_of_panicked.
Qed.

Example unset_status_is_200_witness :
  captured_status cautious_handler NewRecorder example_request = 200
  /\ exists v : float64,
       recorded (snd (MetricsMiddleware cautious_handler NewRecorder example_request
                        example_telemetry)) =
         recorded example_telemetry ++
         [Int64Counter_Add reqCounter context_Background 1
            [attribute_String "http.method" "POST";
             attribute_String "http.route"
               "/twirp/acai.chat.ChatService/StartConversation";
             attribute_Int "http.status_code" 200];
          Float64Histogram_Record latencyHistogram context_Background v
            [attribute_String "http.method" "POST";
             attribute_String "http.route"
               "/twirp/acai.chat.ChatService/StartConversation";
             attribute_Int "http.status_code" 200]].
Proof.
  assert (sets_no_status cautious_handler NewRecorder example_request) as Hunset
    by reflexivity.
  exact (unset_status_is_200 cautious_handler NewRecorder example_request
           example_telemetry Hunset).
Defined.

Lemma latencies_app ms1 ms2 : latencies (ms1 ++ ms2) = latencies ms1 ++ latencies ms2.
Proof. unfold latencies. apply omap_app. Qed.

(** C10. For every request, the value recorded to the latency histogram (one
    value when the handler returns; when it panics nothing is recorded) is
    the elapsed time cut down to whole milliseconds, converted to a float
    without rounding: a non-negative integer. It is exactly [+0] for every
    request that takes less than a millisecond. *)
Theorem latency_is_whole_milliseconds next {W} `{ResponseWriter W} (w : W) r t :
  monotonic_at t ->
  latencies (recorded (snd (MetricsMiddleware next w r t))) =
    latencies (recorded t) ++
    (if handler_returns next w r
     then [float64_of_int64 (Z.quot (elapsed t) 1000000)] else [])
  /\ float64_is_int (float64_of_int64 (Z.quot (elapsed t) 1000000))
       (Z.quot (elapsed t) 1000000)
  /\ 0 <= Z.quot (elapsed t) 1000000
  /\ (elapsed t < 1000000 ->
      float64_of_int64 (Z.quot (elapsed t) 1000000) = S754_zero false).
Proof.
  intros (H0 & Hle & Hmax).
  pose proof (Milliseconds_bounds (elapsed t)) as Hms.
  unfold Milliseconds, elapsed in *.
  split; [|split; [|split]].
  - destruct (handler_returns next w r) eqn:Hret.
    + rewrite recorded_of_returned by done.
      rewrite subMono_monotonic by lia.
      rewrite latencies_app. f_equal.
      destruct (400 <=? _); reflexivity.
    + rewrite recorded_of_panicked by done. by rewrite app_nil_r.
  - apply float64_of_int64_exact. lia.
  - lia.
  - intros Hlt. rewrite Z.quot_small by lia. reflexivity.
Qed.

Example latency_is_whole_milliseconds_witness :
  latencies (recorded (snd (MetricsMiddleware failing_handler NewRecorder
                              example_request example_telemetry))) =
    latencies (recorded example_telemetry) ++ [float64_of_int64 2]
  /\ float64_is_int (float64_of_int64 2) 2
  /\ 0 <= 2
  /\ (elapsed example_telemetry < 1000000 -> float64_of_int64 2 = S754_zero false).
Proof.
  assert (monotonic_at example_telemetry) as Hclock
    by (unfold monotonic_at; simpl; lia).
  exact (latency_is_whole_milliseconds failing_handler NewRecorder example_request
           example_telemetry Hclock).
Defined.

(** * Blank strings and [strings.TrimSpace] *)

(** ** Bytes *)

Lemma ord_range c : 0 <= ord c < 256.
Proof. unfold ord. pose proof (N_ascii_bounded c). lia. Qed.

Lemma chr_ord c : chr (ord c) = c.
Proof. unfold chr, ord. rewrite N2Z.id. apply ascii_N_embedding. Qed.

Lemma ord_chr z : 0 <= z < 256 -> ord (chr z) = z.
Proof.
  intros Hz. unfold chr, ord. rewrite N_ascii_embedding by lia. lia.
Qed.

Lemma ord_inj_chr c z : ord c = z -> c = chr z.
Proof. intros <-. by rewrite chr_ord. Qed.

Lemma string_of_bytes_of s : string_of (bytes_of s) = s.
Proof. apply string_of_list_ascii_of_string. Qed.

Lemma bytes_of_string_of b : bytes_of (string_of b) = b.
Proof. apply list_ascii_of_string_of_list_ascii. Qed.

Lemma string_of_nil b : string_of b = EmptyString -> b = [].
Proof. destruct b; [done|discriminate]. Qed.

Lemma IsSpace_cases r : unicode.IsSpace r = true <-> In r space_runes.
Proof.
  unfold unicode.IsSpace, unicode.White_Space_excluding_Latin, unicode.MaxLatin1,
    space_runes. simpl In.
  destruct ((0 <=? r) && (r <=? 255)) eqn:E.
  - rewrite andb_true_iff, !Z.leb_le in E.
    rewrite ?orb_true_iff, ?Z.eqb_eq. lia.
  - rewrite andb_false_iff, !Z.leb_gt in E.
    rewrite ?orb_true_iff, ?andb_true_iff, ?Z.eqb_eq, ?Z.leb_le. lia.
Qed.

Lemma decode_encode_space r rest :
  unicode.IsSpace r = true ->
  utf8.DecodeRuneInString (utf8.EncodeRune r ++ rest) = (r, len (utf8.EncodeRune r)).
Proof.
  rewrite IsSpace_cases. unfold space_runes. simpl In.
  intros H. repeat (destruct H as [<-|H]; [reflexivity|]). done.
Qed.

Lemma utf8_of_cons r rs : utf8_of (r :: rs) = utf8.EncodeRune r ++ utf8_of rs.
Proof. reflexivity. Qed.

Lemma utf8_of_app rs1 rs2 : utf8_of (rs1 ++ rs2) = utf8_of rs1 ++ utf8_of rs2.
Proof. unfold utf8_of. by rewrite map_app, concat_app. Qed.

Lemma utf8_of_singleton r : utf8_of [r] = utf8.EncodeRune r.
Proof. unfold utf8_of. simpl. apply app_nil_r. Qed.

Lemma drop_len_app (b1 b2 : bytes) : drop (len b1) (b1 ++ b2) = b2.
Proof. unfold len. by rewrite drop_app_length. Qed.

Lemma indexFunc_from_spaces rs :
  all_IsSpace rs ->
  forall n off, strings.indexFunc_from n unicode.IsSpace false (utf8_of rs) off = -1.
Proof.
  induction 1 as [|r rs Hr _ IH]; intros [|n] off; try reflexivity.
  rewrite utf8_of_cons. simpl.
  destruct (utf8.EncodeRune r ++ utf8_of rs) eqn:E; [reflexivity|].
  rewrite <- E, decode_encode_space, Hr by done. simpl.
  rewrite drop_len_app. apply IH.
Qed.

Lemma TrimFunc_spaces rs :
  all_IsSpace rs ->
  strings.TrimFunc (utf8_of rs) unicode.IsSpace = [].
Proof.
  intros Hrs. unfold strings.TrimFunc, strings.TrimLeftFunc, strings.indexFunc.
  by rewrite indexFunc_from_spaces.
Qed.

Lemma TrimSpace_start_spaces rs :
  all_IsSpace rs ->
  strings.TrimSpace_start (utf8_of rs) = inl [] \/ strings.TrimSpace_start (utf8_of rs) = inr [].
Proof.
  induction 1 as [|r rs Hr Hrs IH]; [by right|].
  pose proof (TrimFunc_spaces (r :: rs) ltac:(by constructor)) as HT.
  rewrite utf8_of_cons in *.
  apply IsSpace_cases in Hr. unfold space_runes in Hr. simpl In in Hr.
  repeat (destruct Hr as [<-|Hr];
          [first [ exact IH | left; simpl in *; by rewrite HT ]|]).
  done.
Qed.

Lemma spaces_all_IsSpace rs : spaces rs <-> all_IsSpace rs.
Proof.
  unfold spaces, all_IsSpace. apply Forall_iff. intros r.
  symmetry. apply IsSpace_cases.
Qed.

Lemma blank_TrimSpace s : blank s -> strings.TrimSpace s = EmptyString.
Proof.
  intros (rs & Hrs & Hs). apply spaces_all_IsSpace in Hrs.
  unfold strings.TrimSpace, strings.TrimSpace_bytes.
  rewrite Hs. by destruct (TrimSpace_start_spaces rs Hrs) as [-> | ->].
Qed.

(** ** The bit operations of the decoder, as arithmetic *)
Lemma lor_disjoint hi lo n :
  0 <= n -> 0 <= hi -> 0 <= lo < 2 ^ n -> Z.lor (hi * 2 ^ n) lo = hi * 2 ^ n + lo.
Proof.
  intros Hn Hhi Hlo. symmetry. apply Z.add_nocarry_lor.
  apply Z.bits_inj'. intros k Hk.
  rewrite Z.land_spec, Z.bits_0.
  destruct (Z.lt_ge_cases k n) as [Hlt|Hge].
  - by rewrite Z.mul_pow2_bits_low.
  - destruct (Z.eq_dec lo 0) as [->|Hne]; [by rewrite Z.bits_0, andb_false_r|].
    rewrite (Z.bits_above_log2 lo k), andb_false_r; [done|lia|].
    apply Z.lt_le_trans with n; [|done].
    apply Z.log2_lt_pow2; lia.
Qed.

Lemma land_low b n : 0 <= n -> Z.land b (Z.ones n) = b mod 2 ^ n.
Proof. intros Hn. by apply Z.land_ones. Qed.

Lemma decode2_value b0 b1 :
  192 <= b0 < 224 -> 128 <= b1 < 192 ->
  Z.lor (Z.shiftl (Z.land b0 utf8.mask2) 6) (Z.land b1 utf8.maskx)
  = (b0 - 192) * 64 + (b1 - 128).
Proof.
  intros H0 H1. unfold utf8.mask2, utf8.maskx.
  change 31 with (Z.ones 5). change 63 with (Z.ones 6).
  rewrite !land_low, Z.shiftl_mul_pow2 by lia.
  replace (b0 mod 2 ^ 5) with (b0 - 192) by (apply Z.mod_unique with 6; lia).
  replace (b1 mod 2 ^ 6) with (b1 - 128) by (apply Z.mod_unique with 2; lia).
  rewrite lor_disjoint; lia.
Qed.

Lemma decode3_value b0 b1 b2 :
  224 <= b0 < 240 -> 128 <= b1 < 192 -> 128 <= b2 < 192 ->
  Z.lor (Z.lor (Z.shiftl (Z.land b0 utf8.mask3) 12) (Z.shiftl (Z.land b1 utf8.maskx) 6))
        (Z.land b2 utf8.maskx)
  = (b0 - 224) * 4096 + (b1 - 128) * 64 + (b2 - 128).
Proof.
  intros H0 H1 H2. unfold utf8.mask3, utf8.maskx.
  change 15 with (Z.ones 4). change 63 with (Z.ones 6).
  rewrite !land_low, !Z.shiftl_mul_pow2 by lia.
  replace (b0 mod 2 ^ 4) with (b0 - 224) by (apply Z.mod_unique with 14; lia).
  replace (b1 mod 2 ^ 6) with (b1 - 128) by (apply Z.mod_unique with 2; lia).
  replace (b2 mod 2 ^ 6) with (b2 - 128) by (apply Z.mod_unique with 2; lia).
  rewrite (lor_disjoint (b0 - 224) _ 12) by lia.
  replace ((b0 - 224) * 2 ^ 12 + (b1 - 128) * 2 ^ 6)
    with (((b0 - 224) * 64 + (b1 - 128)) * 2 ^ 6) by lia.
  rewrite lor_disjoint; lia.
Qed.

Lemma decode4_value b0 b1 b2 b3 :
  240 <= b0 < 248 -> 128 <= b1 < 192 -> 128 <= b2 < 192 -> 128 <= b3 < 192 ->
  Z.lor (Z.lor (Z.lor (Z.shiftl (Z.land b0 utf8.mask4) 18)
                      (Z.shiftl (Z.land b1 utf8.maskx) 12))
               (Z.shiftl (Z.land b2 utf8.maskx) 6))
        (Z.land b3 utf8.maskx)
  = (b0 - 240) * 262144 + (b1 - 128) * 4096 + (b2 - 128) * 64 + (b3 - 128).
Proof.
  intros H0 H1 H2 H3. unfold utf8.mask4, utf8.maskx.
  change 7 with (Z.ones 3). change 63 with (Z.ones 6).
  rewrite !land_low, !Z.shiftl_mul_pow2 by lia.
  replace (b0 mod 2 ^ 3) with (b0 - 240) by (apply Z.mod_unique with 30; lia).
  replace (b1 mod 2 ^ 6) with (b1 - 128) by (apply Z.mod_unique with 2; lia).
  replace (b2 mod 2 ^ 6) with (b2 - 128) by (apply Z.mod_unique with 2; lia).
  replace (b3 mod 2 ^ 6) with (b3 - 128) by (apply Z.mod_unique with 2; lia).
  rewrite (lor_disjoint (b0 - 240) _ 18) by lia.
  replace ((b0 - 240) * 2 ^ 18 + (b1 - 128) * 2 ^ 12)
    with (((b0 - 240) * 64 + (b1 - 128)) * 2 ^ 12) by lia.
  rewrite (lor_disjoint _ _ 12) by lia.
  replace (((b0 - 240) * 64 + (b1 - 128)) * 2 ^ 12 + (b2 - 128) * 2 ^ 6)
    with ((((b0 - 240) * 64 + (b1 - 128)) * 64 + (b2 - 128)) * 2 ^ 6) by lia.
  rewrite lor_disjoint; lia.
Qed.

Lemma ord_inj c c' : ord c = ord c' -> c = c'.
Proof. intros H. rewrite <- (chr_ord c), <- (chr_ord c'). by rewrite H. Qed.

Lemma first_cases b :
  0 <= b < 256 ->
  (b < 128 /\ utf8.first b = utf8.as_)
  \/ utf8.first b = utf8.xx
  \/ (194 <= b < 224 /\ utf8.first b = utf8.s1)
  \/ (b = 224 /\ utf8.first b = utf8.s2)
  \/ (225 <= b < 240 /\ b <> 237 /\ utf8.first b = utf8.s3)
  \/ (b = 237 /\ utf8.first b = utf8.s4)
  \/ (b = 240 /\ utf8.first b = utf8.s5)
  \/ (241 <= b < 244 /\ utf8.first b = utf8.s6)
  \/ (b = 244 /\ utf8.first b = utf8.s7).
Proof.
  intros Hb. unfold utf8.first.
  repeat match goal with
         | |- context [if ?x <? ?y then _ else _] => destruct (Z.ltb_spec x y)
         | |- context [if ?x =? ?y then _ else _] => destruct (Z.eqb_spec x y)
         end; try lia; auto 20 with lia.
Qed.

Lemma not_space_RuneError : unicode.IsSpace utf8.RuneError = false.
Proof. reflexivity. Qed.

Ltac rune_error H Hsp :=
  injection H as <- <-; rewrite not_space_RuneError in Hsp; discriminate.

Ltac pin_byte :=
  apply ord_inj;
  match goal with
  | |- ord ?c = ?rhs => let v := eval vm_compute in rhs in change (ord c = v)
  end; lia.

Ltac pin_bytes :=
  split; [simpl; repeat f_equal; pin_byte | reflexivity].

Ltac three_bytes Hdec Hsp Hin t0 :=
  let c1 := fresh "c1" in let c2 := fresh "c2" in let t2 := fresh "t2" in
  let b1 := fresh "b1" in let b2 := fresh "b2" in
  let Hb1 := fresh "Hb1" in let Hb2 := fresh "Hb2" in
  let Hr := fresh "Hr" in
  destruct t0 as [|c1 [|c2 t2]]; simpl in Hdec; try rune_error Hdec Hsp;
  pose proof (ord_range c1) as Hb1; remember (ord c1) as b1;
  pose proof (ord_range c2) as Hb2; remember (ord c2) as b2;
  destruct (b1 <? _) eqn:? in Hdec; [rune_error Hdec Hsp|];
  destruct (_ <? b1) eqn:? in Hdec; [rune_error Hdec Hsp|]; simpl in Hdec;
  destruct (b2 <? utf8.locb) eqn:?; [rune_error Hdec Hsp|];
  destruct (utf8.hicb <? b2) eqn:?; [rune_error Hdec Hsp|]; simpl in Hdec;
  unfold utf8.locb, utf8.hicb in *;
  rewrite decode3_value in Hdec by lia; injection Hdec as <- <-;
  repeat (destruct Hin as [Hr|Hin];
          [first [exfalso; lia | rewrite <- Hr; pin_bytes]|]);
  done.

Ltac four_bytes Hdec Hsp Hin t0 :=
  let c1 := fresh "c1" in let c2 := fresh "c2" in let c3 := fresh "c3" in
  let t3 := fresh "t3" in
  let b1 := fresh "b1" in let b2 := fresh "b2" in let b3 := fresh "b3" in
  let Hb1 := fresh "Hb1" in let Hb2 := fresh "Hb2" in let Hb3 := fresh "Hb3" in
  let Hr := fresh "Hr" in
  destruct t0 as [|c1 [|c2 [|c3 t3]]]; simpl in Hdec; try rune_error Hdec Hsp;
  pose proof (ord_range c1) as Hb1; remember (ord c1) as b1;
  pose proof (ord_range c2) as Hb2; remember (ord c2) as b2;
  pose proof (ord_range c3) as Hb3; remember (ord c3) as b3;
  destruct (b1 <? _) eqn:? in Hdec; [rune_error Hdec Hsp|];
  destruct (_ <? b1) eqn:? in Hdec; [rune_error Hdec Hsp|]; simpl in Hdec;
  destruct (b2 <? utf8.locb) eqn:?; [rune_error Hdec Hsp|];
  destruct (utf8.hicb <? b2) eqn:?; [rune_error Hdec Hsp|]; simpl in Hdec;
  destruct (b3 <? utf8.locb) eqn:?; [rune_error Hdec Hsp|];
  destruct (utf8.hicb <? b3) eqn:?; [rune_error Hdec Hsp|]; simpl in Hdec;
  unfold utf8.locb, utf8.hicb in *;
  rewrite decode4_value in Hdec by lia; injection Hdec as <- <-;
  repeat (destruct Hin as [Hr|Hin]; [exfalso; lia|]);
  done.

Lemma decode_space_inv w r size :
  utf8.DecodeRuneInString w = (r, size) -> unicode.IsSpace r = true ->
  w = utf8.EncodeRune r ++ drop size w /\ size = len (utf8.EncodeRune r).
Proof.
  intros Hdec Hsp. destruct w as [|c0 t0]; [rune_error Hdec Hsp|].
  unfold utf8.DecodeRuneInString in Hdec.
  pose proof (ord_range c0) as Hb0. remember (ord c0) as b0 eqn:Eb0.
  pose proof (proj1 (IsSpace_cases r) Hsp) as Hin.
  unfold space_runes in Hin. simpl In in Hin.
  destruct (first_cases b0 Hb0)
    as [[H0 Hf]|[Hf|[[H0 Hf]|[[H0 Hf]|[(H0 & H0' & Hf)|[[H0 Hf]|[[H0 Hf]|[[H0 Hf]|[H0 Hf]]]]]]]]];
    rewrite Hf in Hdec; simpl in Hdec.
  - (* ASCII *)
    injection Hdec as <- <-.
    repeat (destruct Hin as [Hr|Hin];
            [first [exfalso; lia | rewrite <- Hr; pin_bytes]|]). done.
  - rune_error Hdec Hsp.
  - (* two bytes *)
    destruct t0 as [|c1 t1]; [rune_error Hdec Hsp|]. simpl in Hdec.
    pose proof (ord_range c1) as Hb1. remember (ord c1) as b1 eqn:Eb1.
    destruct (b1 <? utf8.locb) eqn:E1; [rune_error Hdec Hsp|].
    destruct (utf8.hicb <? b1) eqn:E2; [rune_error Hdec Hsp|]. simpl in Hdec.
    unfold utf8.locb, utf8.hicb in *.
    rewrite decode2_value in Hdec by lia. injection Hdec as <- <-.
    repeat (destruct Hin as [Hr|Hin];
            [first [exfalso; lia | rewrite <- Hr; pin_bytes]|]). done.
  - three_bytes Hdec Hsp Hin t0.
  - three_bytes Hdec Hsp Hin t0.
  - three_bytes Hdec Hsp Hin t0.
  - four_bytes Hdec Hsp Hin t0.
  - four_bytes Hdec Hsp Hin t0.
  - four_bytes Hdec Hsp Hin t0.
Qed.


Lemma encode_space_len r : unicode.IsSpace r = true -> (1 <= len (utf8.EncodeRune r))%nat.
Proof.
  rewrite IsSpace_cases. unfold space_runes. simpl In.
  intros H. repeat (destruct H as [<-|H]; [simpl; lia|]). done.
Qed.

Lemma decode_size_pos c t : (1 <= snd (utf8.DecodeRuneInString (c :: t)))%nat.
Proof.
  unfold utf8.DecodeRuneInString.
  repeat match goal with
         | |- context [if ?b then _ else _] => destruct b
         | |- context [match ?l with [] => _ | _ :: _ => _ end] => destruct l
         end; simpl; lia.
Qed.

#[local] Arguments utf8.DecodeRuneInString : simpl never.
#[local] Arguments utf8.DecodeLastRuneInString : simpl never.

Lemma indexFunc_none n : forall s off,
  (len s <= n)%nat ->
  strings.indexFunc_from n unicode.IsSpace false s off = -1 ->
  exists rs, all_IsSpace rs /\ s = utf8_of rs.
Proof.
  induction n as [|n IH]; intros s off Hlen H.
  - destruct s; [|simpl in Hlen; lia]. exists []. by split; [constructor|].
  - destruct s as [|c t]; [exists []; by split; [constructor|]|].
    simpl in H. destruct (utf8.DecodeRuneInString (c :: t)) as [r size] eqn:Hdec.
    destruct (unicode.IsSpace r) eqn:Hsp; simpl in H; [|lia].
    destruct (decode_space_inv _ _ _ Hdec Hsp) as [Hs Hsize].
    pose proof (encode_space_len r Hsp) as Hpos.
    destruct (IH (drop size (c :: t)) (off + size)%nat) as (rs & Hrs & Hdrop); [|done|].
    { unfold len in *. rewrite length_drop. simpl in *. lia. }
    exists (r :: rs). split; [by constructor|].
    rewrite utf8_of_cons, <- Hdrop. exact Hs.
Qed.

Lemma indexFunc_some n : forall s off i,
  strings.indexFunc_from n unicode.IsSpace false s off = i -> i <> -1 ->
  exists k r size,
    i = Z.of_nat (off + k) /\ (k < len s)%nat
    /\ utf8.DecodeRuneInString (drop k s) = (r, size) /\ unicode.IsSpace r = false.
Proof.
  induction n as [|n IH]; intros s off i H Hi; [simpl in H; lia|].
  destruct s as [|c t]; [simpl in H; lia|].
  simpl in H. destruct (utf8.DecodeRuneInString (c :: t)) as [r size] eqn:Hdec.
  destruct (unicode.IsSpace r) eqn:Hsp; simpl in H.
  - destruct (IH _ _ _ H Hi) as (k & r' & size' & -> & Hk & Hdec' & Hsp').
    unfold len in *. rewrite length_drop in Hk. rewrite drop_drop in Hdec'.
    exists (size + k)%nat, r', size'. split_and!; [lia|lia|done|done].
  - exists 0%nat, r, size. rewrite Nat.add_0_r. simpl. split_and!; [lia|lia|done|done].
Qed.

Lemma encode_ascii c : ord c < 128 -> utf8.EncodeRune (ord c) = [c].
Proof.
  intros Hc. pose proof (ord_range c). unfold utf8.EncodeRune.
  destruct (0 <=? ord c) eqn:E1; [|lia]. destruct (ord c <=? 127) eqn:E2; [|lia].
  simpl. by rewrite chr_ord.
Qed.

Lemma decode_last_space_inv v r size :
  utf8.DecodeLastRuneInString v = (r, size) -> unicode.IsSpace r = true ->
  exists v', v = v' ++ utf8.EncodeRune r /\ size = len (utf8.EncodeRune r).
Proof.
  unfold utf8.DecodeLastRuneInString. intros Hdec Hsp.
  destruct (Z.of_nat (len v) =? 0) eqn:E0; [rune_error Hdec Hsp|].
  assert (v <> []) as Hne by (intros ->; simpl in E0; lia).
  destruct (exists_last Hne) as (v' & c & Hv).
  assert (nth (Z.to_nat (Z.of_nat (len v) - 1)) v zero = c) as Hlast.
  { rewrite Hv. unfold len. rewrite length_app. simpl.
    replace (Z.to_nat (Z.of_nat (List.length v' + 1) - 1)) with (List.length v') by lia.
    rewrite app_nth2 by lia. by rewrite Nat.sub_diag. }
  rewrite Hlast in Hdec.
  destruct (ord c <? utf8.RuneSelf) eqn:E1.
  - injection Hdec as <- <-. unfold utf8.RuneSelf in E1.
    rewrite encode_ascii by lia. by exists v'.
  - set (start := if _ <? 0 then 0 else _) in Hdec.
    assert (0 <= start) as Hstart by (unfold start; destruct (_ <? 0) eqn:E; lia).
    destruct (utf8.DecodeRuneInString (drop (Z.to_nat start) v)) as [r' size'] eqn:Hd.
    destruct (start + Z.of_nat size' =? Z.of_nat (len v)) eqn:E2; simpl in Hdec;
      [|rune_error Hdec Hsp].
    injection Hdec as -> ->.
    destruct (decode_space_inv _ _ _ Hd Hsp) as [Hs Hsize].
    exists (take (Z.to_nat start) v). split; [|done].
    apply Z.eqb_eq in E2. clearbody start.
    rewrite drop_drop, (drop_ge v (Z.to_nat start + size)), app_nil_r in Hs
      by (unfold len in *; lia).
    rewrite <- Hs. by rewrite take_drop.
Qed.

Lemma lastIndexFunc_from_range n : forall s i,
  strings.lastIndexFunc_from n unicode.IsSpace false s i = -1
  \/ 0 <= strings.lastIndexFunc_from n unicode.IsSpace false s i.
Proof.
  induction n as [|n IH]; intros s i; simpl; [by left|].
  destruct (0 <? i)%nat; [|by left].
  destruct (utf8.DecodeLastRuneInString (take i s)) as [r size].
  destruct (Bool.eqb _ _); [right; lia|apply IH].
Qed.

Lemma lastIndexFunc_none n : forall u i,
  (i <= n)%nat -> (i <= len u)%nat ->
  strings.lastIndexFunc_from n unicode.IsSpace false u i = -1 ->
  exists rs, all_IsSpace rs /\ take i u = utf8_of rs.
Proof.
  induction n as [|n IH]; intros u i Hn Hlen H.
  - assert (i = 0)%nat as -> by lia. exists []. by split; [constructor|].
  - simpl in H. destruct (0 <? i)%nat eqn:Hi.
    2:{ apply Nat.ltb_ge in Hi. assert (i = 0)%nat as -> by lia.
        exists []. by split; [constructor|]. }
    apply Nat.ltb_lt in Hi.
    destruct (utf8.DecodeLastRuneInString (take i u)) as [r size] eqn:Hdec.
    destruct (unicode.IsSpace r) eqn:Hsp; simpl in H; [|lia].
    destruct (decode_last_space_inv _ _ _ Hdec Hsp) as (v' & Hv & Hsize).
    pose proof (encode_space_len r Hsp) as Hpos.
    assert (len (take i u) = i) as Hti by (unfold len in *; rewrite length_take; lia).
    assert (len v' = (i - size)%nat) as Hv'.
    { rewrite Hv in Hti. unfold len in *. rewrite length_app in Hti. lia. }
    destruct (IH u (i - size)%nat) as (rs & Hrs & Htake); [lia|lia|done|].
    exists (rs ++ [r]). split; [apply Forall_app; split; [done|by constructor]|].
    rewrite utf8_of_app, <- Htake, utf8_of_singleton.
    rewrite Hv at 1. f_equal.
    assert (take (i - size) (take i u) = take (i - size) u) as <-
      by (rewrite take_take; f_equal; lia).
    rewrite Hv. unfold len in *. by rewrite take_app_length'.
Qed.

Lemma TrimRightFunc_nonempty u r size :
  u <> [] -> utf8.DecodeRuneInString u = (r, size) -> unicode.IsSpace r = false ->
  strings.TrimRightFunc u unicode.IsSpace <> [].
Proof.
  intros Hne Hdec Hsp. unfold strings.TrimRightFunc, strings.lastIndexFunc.
  destruct (lastIndexFunc_from_range (len u) u (len u)) as [Hnone|Hsome].
  - exfalso.
    destruct (lastIndexFunc_none (len u) u (len u)) as (rs & Hrs & Hu); [done|done|done|].
    unfold len in Hu. rewrite firstn_all in Hu.
    destruct Hrs as [|r0 rs Hr0 Hrs]; [done|].
    rewrite Hu, utf8_of_cons, decode_encode_space in Hdec by done.
    injection Hdec as <- <-. congruence.
  - set (i := strings.lastIndexFunc_from _ _ _ _ _) in *.
    destruct u as [|c t]; [done|].
    destruct ((0 <=? i) && (utf8.RuneSelf <=? ord (nth (Z.to_nat i) (c :: t) zero))) eqn:E.
    + destruct (utf8.DecodeRuneInString (drop (Z.to_nat i) (c :: t))) as [r' wid] eqn:Hd.
      assert (Z.to_nat i < len (c :: t))%nat as Hlt.
      { destruct (Nat.lt_ge_cases (Z.to_nat i) (len (c :: t))) as [|Hge]; [done|].
        rewrite nth_overflow in E by done. rewrite andb_false_r in E. done. }
      destruct (drop (Z.to_nat i) (c :: t)) as [|c' t'] eqn:Hdrop.
      { apply (f_equal List.length) in Hdrop. rewrite length_drop in Hdrop.
        unfold len in *. simpl in *. lia. }
      pose proof (decode_size_pos c' t') as Hpos. rewrite Hd in Hpos. simpl in Hpos.
      replace (Z.to_nat (i + Z.of_nat wid)) with (S (Z.to_nat (i + Z.of_nat wid) - 1)) by lia.
      done.
    + replace (Z.to_nat (i + 1)) with (S (Z.to_nat i)) by lia. done.
Qed.

Lemma TrimFunc_nil s :
  strings.TrimFunc s unicode.IsSpace = [] -> exists rs, all_IsSpace rs /\ s = utf8_of rs.
Proof.
  unfold strings.TrimFunc, strings.TrimLeftFunc, strings.indexFunc. intros H.
  destruct (strings.indexFunc_from (len s) unicode.IsSpace false s 0 =? -1) eqn:E.
  - apply Z.eqb_eq in E. by eapply indexFunc_none.
  - apply Z.eqb_neq in E. exfalso.
    destruct (indexFunc_some _ _ _ _ eq_refl E) as (k & r & size & Hi & Hk & Hdec & Hsp).
    rewrite Hi in H. simpl in H. rewrite Nat2Z.id in H.
    eapply TrimRightFunc_nonempty; [|done|done|done].
    intros Hnil. apply (f_equal List.length) in Hnil.
    rewrite length_drop in Hnil. unfold len in *. simpl in *. lia.
Qed.

Lemma IsSpace_ascii b : 0 <= b < 128 -> unicode.IsSpace b = strings.asciiSpace b.
Proof.
  intros Hb. unfold unicode.IsSpace, strings.asciiSpace, unicode.MaxLatin1.
  destruct (0 <=? b) eqn:E1; [|lia]. destruct (b <=? 255) eqn:E2; [|lia]. simpl.
  destruct (b =? 133) eqn:E3; [lia|]. destruct (b =? 160) eqn:E4; [lia|].
  by rewrite !orb_false_r.
Qed.

Lemma decode_ascii c t :
  ord c < 128 -> utf8.DecodeRuneInString (c :: t) = (ord c, 1%nat).
Proof.
  intros Hc. pose proof (ord_range c). unfold utf8.DecodeRuneInString, utf8.first.
  destruct (ord c <? 128) eqn:E; [|lia]. reflexivity.
Qed.

Lemma TrimSpace_stop_S t n :
  strings.TrimSpace_stop t (S n) =
    if utf8.RuneSelf <=? ord (nth n t zero)
    then strings.TrimRightFunc (take (S n) t) unicode.IsSpace
    else if negb (strings.asciiSpace (ord (nth n t zero))) then take (S n) t
         else strings.TrimSpace_stop t n.
Proof. reflexivity. Qed.

Lemma TrimSpace_stop_nonempty c t : forall n,
  ord c < 128 -> strings.asciiSpace (ord c) = false ->
  (1 <= n)%nat ->
  strings.TrimSpace_stop (c :: t) n <> [].
Proof.
  intros n Hc Hsp. induction n as [|n IH]; intros Hn; [lia|].
  rewrite TrimSpace_stop_S.
  destruct (utf8.RuneSelf <=? ord (nth n (c :: t) zero)) eqn:E1.
  - eapply TrimRightFunc_nonempty; [done|apply decode_ascii; lia|].
    rewrite IsSpace_ascii; [done|pose proof (ord_range c); lia].
  - destruct (strings.asciiSpace (ord (nth n (c :: t) zero))) eqn:E2; simpl negb; cbv iota;
      [|done].
    apply IH. destruct n; [|lia]. simpl in E2. congruence.
Qed.

Lemma TrimSpace_start_cons c s :
  strings.TrimSpace_start (c :: s) =
    if utf8.RuneSelf <=? ord c then inl (strings.TrimFunc (c :: s) unicode.IsSpace)
    else if negb (strings.asciiSpace (ord c)) then inr (c :: s)
         else strings.TrimSpace_start s.
Proof. reflexivity. Qed.

Lemma TrimSpace_bytes_nil s :
  strings.TrimSpace_bytes s = [] -> exists rs, all_IsSpace rs /\ s = utf8_of rs.
Proof.
  unfold strings.TrimSpace_bytes. induction s as [|c s IH]; intros H.
  - exists []. by split; [constructor|].
  - rewrite TrimSpace_start_cons in H.
    destruct (utf8.RuneSelf <=? ord c) eqn:E1.
    + by apply TrimFunc_nil.
    + unfold utf8.RuneSelf in E1.
      destruct (strings.asciiSpace (ord c)) eqn:E2; simpl negb in H; cbv iota in H.
      * destruct (IH H) as (rs & Hrs & ->).
        exists (ord c :: rs). split.
        -- constructor; [|done]. rewrite IsSpace_ascii; [done|pose proof (ord_range c); lia].
        -- rewrite utf8_of_cons, encode_ascii by lia. done.
      * exfalso. revert H. apply TrimSpace_stop_nonempty; [lia|done|simpl; lia].
Qed.

Lemma TrimSpace_blank s : strings.TrimSpace s = EmptyString <-> blank s.
Proof.
  split; [|apply blank_TrimSpace].
  unfold strings.TrimSpace. intros H. apply string_of_nil in H.
  destruct (TrimSpace_bytes_nil _ H) as (rs & Hrs & Hs).
  exists rs. by rewrite spaces_all_IsSpace.
Qed.

(** ** The bounds on the loops are never reached *)

Lemma indexFunc_from_fuel f truth n : forall m s off,
  (len s <= n)%nat -> (len s <= m)%nat ->
  strings.indexFunc_from n f truth s off = strings.indexFunc_from m f truth s off.
Proof.
  induction n as [|n IH]; intros m s off Hn Hm.
  - destruct s; [|simpl in Hn; lia]. by destruct m.
  - destruct s as [|c t]; [by destruct m|].
    destruct m as [|m]; [simpl in Hm; lia|]. simpl.
    pose proof (decode_size_pos c t) as Hpos.
    destruct (utf8.DecodeRuneInString (c :: t)) as [r size]. simpl in Hpos.
    destruct (Bool.eqb _ _); [done|].
    apply IH; unfold len in *; rewrite length_drop; simpl in *; lia.
Qed.

Lemma back_to_start_le s lim n : forall start,
  utf8.back_to_start s lim n start <= start.
Proof.
  induction n as [|n IH]; intros start; simpl; [lia|].
  destruct (start <? lim); [lia|]. destruct (utf8.RuneStart _); [lia|].
  specialize (IH (start - 1)). lia.
Qed.

Lemma back_to_start_fuel s lim n : forall m start,
  start - lim < Z.of_nat n -> start - lim < Z.of_nat m ->
  utf8.back_to_start s lim n start = utf8.back_to_start s lim m start.
Proof.
  induction n as [|n IH]; intros m start Hn Hm.
  - destruct m as [|m]; [done|]. simpl.
    destruct (start <? lim) eqn:E; [done|]. lia.
  - destruct m as [|m]; simpl.
    + destruct (start <? lim) eqn:E; [done|]. lia.
    + destruct (start <? lim) eqn:E; [done|]. destruct (utf8.RuneStart _); [done|].
      apply IH; lia.
Qed.

Lemma decode_last_size_pos v :
  v <> [] -> (1 <= snd (utf8.DecodeLastRuneInString v))%nat.
Proof.
  intros Hne. unfold utf8.DecodeLastRuneInString.
  assert (1 <= len v)%nat as Hlen by (destruct v; [done|simpl; lia]).
  destruct (Z.of_nat (len v) =? 0) eqn:E0; [lia|].
  destruct (_ <? utf8.RuneSelf); [simpl; lia|].
  set (start := if _ <? 0 then 0 else _).
  destruct (utf8.DecodeRuneInString (drop (Z.to_nat start) v)) as [r size].
  destruct (start + Z.of_nat size =? Z.of_nat (len v)) eqn:E; simpl; [|lia].
  apply Z.eqb_eq in E.
  pose proof (back_to_start_le v (Z.max (Z.of_nat (len v) - Z.of_nat utf8.UTFMax) 0)
                utf8.UTFMax (Z.of_nat (len v) - 1 - 1)) as Hle.
  assert (start < Z.of_nat (len v)) as Hlt by (unfold start; destruct (_ <? 0); lia).
  lia.
Qed.

Lemma lastIndexFunc_from_fuel f truth s n : forall m i,
  (i <= n)%nat -> (i <= m)%nat -> (i <= len s)%nat ->
  strings.lastIndexFunc_from n f truth s i = strings.lastIndexFunc_from m f truth s i.
Proof.
  induction n as [|n IH]; intros m i Hn Hm Hlen.
  - assert (i = 0)%nat as -> by lia. by destruct m.
  - destruct m as [|m]; [by assert (i = 0)%nat as -> by lia|]. simpl.
    destruct (0 <? i)%nat eqn:Hi; [|done]. apply Nat.ltb_lt in Hi.
    assert (take i s <> []) as Hne.
    { intros Hnil. apply (f_equal List.length) in Hnil.
      rewrite length_take in Hnil. unfold len in *. simpl in Hnil. lia. }
    pose proof (decode_last_size_pos _ Hne) as Hpos.
    destruct (utf8.DecodeLastRuneInString (take i s)) as [r size]. simpl in Hpos.
    destruct (Bool.eqb _ _); [done|]. apply IH; lia.
Qed.

(** * Orchestration of the title and the reply *)

Section Orchestration.
Variables (a : Assistant) (ctx : Context) (conv : Conversation).

Lemma Inv_init : Inv a ctx conv (init conv).
Proof. repeat split; simpl; lia. Qed.

Lemma sent_title_failed title err :
  (title, err) = assist_Title a ctx conv -> title_failed title err = true ->
  sent_title a ctx conv = untitled.
Proof. unfold sent_title. intros <- Hf. by rewrite Hf. Qed.

Lemma sent_title_ok title err :
  (title, err) = assist_Title a ctx conv -> title_failed title err = false ->
  sent_title a ctx conv = title.
Proof. unfold sent_title. intros <- Hf. by rewrite Hf. Qed.


Ltac unfold_inv :=
  unfold Inv, main_inv, title_inv, reply_inv in *; simpl in *.

Ltac solve_inv :=
  intuition (simplify_eq/=; try lia; try done); eauto with lia.

Ltac split_inv gt gr :=
  split; [|split];
  [ first [ solve [solve_inv]
          | destruct gt; simpl in *; solve [solve_inv]
          | destruct gr; simpl in *; solve [solve_inv] ]
  | try destruct gt; simpl in *; solve_inv
  | try destruct gr; simpl in *; solve_inv ].

Lemma Inv_step_main st st' :
  Inv a ctx conv st -> step_main st = Some st' -> Inv a ctx conv st'.
Proof.
  destruct st as [m gt gr tc rc c lg].
  intros (Hm & Ht & Hr) Hstep.
  unfold step_main in Hstep. unfold_inv.
  destruct m; simpl in *; simplify_option_eq.
  - split_inv gt gr.
  - split_inv gt gr.
  - destruct tc as [|x tc]; simplify_eq/=. split_inv gt gr.
  - destruct rc as [|x rc]; simplify_eq/=. split_inv gt gr.
  - destruct Hm as (-> & -> & ->).
    destruct (assist_Reply a ctx conv) as [rv [e|]] eqn:E; simplify_eq/=; split_inv gt gr.
  - split_inv gt gr.
  - split_inv gt gr.
Qed.

Lemma phase_conversation st :
  main_inv a ctx conv st -> (phase (main st) <= 6)%nat -> conversation st = conv.
Proof.
  unfold main_inv. destruct (main st); simpl; intuition lia.
Qed.

Lemma Inv_step_title st st' :
  Inv a ctx conv st -> step_title a ctx st = Some st' -> Inv a ctx conv st'.
Proof.
  destruct st as [m gt gr tc rc c lg].
  intros (Hm & Ht & Hr) Hstep.
  pose proof (phase_conversation _ Hm) as Hconv.
  unfold step_title, chan_send in Hstep. unfold_inv.
  destruct gt; simpl in *; try done.
  - assert (c = conv) as -> by (apply Hconv; lia).
    destruct (assist_Title a ctx conv) as [t e] eqn:E. simplify_eq/=.
    split; [exact Hm|]. split; [|exact Hr]. simpl. intuition.
  - destruct Ht as (Hp & -> & Ht).
    destruct (title_failed title err) eqn:E; simplify_eq/=;
      (split; [exact Hm|]; split; [|exact Hr]); simpl; intuition.
    by apply (sent_title_ok _ err).
  - destruct Ht as (Hp & -> & Ht & Hf). simplify_eq/=.
    split; [exact Hm|]. split; [|exact Hr]. simpl. intuition.
    by apply (sent_title_failed title err).
  - destruct Ht as (Hp & -> & Ht). simpl in Hstep. injection Hstep as <-.
    split; [exact Hm|]. split; [|exact Hr]. simpl. rewrite Ht. auto.
  - destruct Ht as (Hp & -> & Ht). simpl in Hstep. injection Hstep as <-.
    split; [exact Hm|]. split; [|exact Hr]. simpl. rewrite Ht. auto.
Qed.

Lemma Inv_step_reply st st' :
  Inv a ctx conv st -> step_reply a ctx st = Some st' -> Inv a ctx conv st'.
Proof.
  destruct st as [m gt gr tc rc c lg].
  intros (Hm & Ht & Hr) Hstep.
  pose proof (phase_conversation _ Hm) as Hconv.
  unfold step_reply, chan_send in Hstep. unfold_inv.
  destruct gr; simpl in *; try done.
  - assert (c = conv) as -> by (apply Hconv; lia).
    destruct (assist_Reply a ctx conv) as [t e] eqn:E. simplify_eq/=.
    split; [exact Hm|]. split; [exact Ht|]. simpl. intuition.
  - destruct Hr as (Hp & -> & Hr). simpl in Hstep. injection Hstep as <-.
    split; [exact Hm|]. split; [exact Ht|]. simpl. rewrite Hr. auto.
Qed.

Lemma Inv_Step st st' : Inv a ctx conv st -> Step a ctx st st' -> Inv a ctx conv st'.
Proof.
  intros HI [[] Hstep]; simpl in Hstep;
    eauto using Inv_step_main, Inv_step_title, Inv_step_reply.
Qed.

Lemma reachable_Inv st : reachable a ctx conv st -> Inv a ctx conv st.
Proof.
  unfold reachable. intros Hr.
  eapply (rtc_ind_r (Inv a ctx conv)); [apply Inv_init| |exact Hr].
  intros y z _ Hstep HI. by eapply Inv_Step.
Qed.

Lemma Step_steps_left st st' : Step a ctx st st' -> (steps_left st' < steps_left st)%nat.
Proof.
  destruct st as [m gt gr tc rc c lg].
  intros [[] Hstep]; simpl in Hstep; unfold steps_left.
  - unfold step_main in Hstep. destruct m; simpl in Hstep; try discriminate;
      try (injection Hstep as <-; simpl; lia).
    + destruct tc; cbn in Hstep; [discriminate|]. injection Hstep as <-. simpl. lia.
    + destruct rc; cbn in Hstep; [discriminate|]. injection Hstep as <-. simpl. lia.
    + destruct (snd replyResult); injection Hstep as <-; simpl; lia.
  - unfold step_title, chan_send in Hstep. destruct gt; simpl in Hstep; try discriminate;
      try (injection Hstep as <-; simpl; lia).
    + destruct (assist_Title _ _ _). injection Hstep as <-. simpl. lia.
    + destruct (title_failed _ _); injection Hstep as <-; simpl; lia.
    + destruct (_ <? _)%nat; cbn in Hstep; [|discriminate].
      injection Hstep as <-. simpl. lia.
    + destruct (_ <? _)%nat; cbn in Hstep; [|discriminate].
      injection Hstep as <-. simpl. lia.
  - unfold step_reply, chan_send in Hstep. destruct gr; simpl in Hstep; try discriminate;
      try (injection Hstep as <-; simpl; lia).
    + destruct (assist_Reply _ _ _). injection Hstep as <-. simpl. lia.
    + destruct (_ <? _)%nat; cbn in Hstep; [|discriminate].
      injection Hstep as <-. simpl. lia.
Qed.

Lemma Step_sn st : sn (Step a ctx) st.
Proof.
  remember (steps_left st) as n eqn:Hn. revert st Hn.
  induction n as [n IH] using lt_wf_ind. intros st ->.
  constructor. intros st' Hstep. simpl in Hstep.
  eapply IH; [|reflexivity]. by apply Step_steps_left.
Qed.

Lemma Inv_progress st :
  Inv a ctx conv st -> returned (main st) = false -> red (Step a ctx) st.
Proof.
  destruct st as [m gt gr tc rc c lg].
  intros (Hm & Ht & Hr) Hnot. unfold red, Step. unfold_inv.
  destruct m; simpl in *; try done.
  - eexists _, Main. reflexivity.
  - eexists _, Main. reflexivity.
  - destruct tc as [|x tc].
    + destruct gt; simpl in *; try (intuition (try lia; done)).
      * destruct (assist_Title a ctx c) as [t e] eqn:E.
        eexists _, TitleG. simpl. unfold step_title. simpl. rewrite E. reflexivity.
      * destruct (title_failed title err) eqn:E;
          eexists _, TitleG; simpl; unfold step_title; simpl; rewrite E; reflexivity.
      * eexists _, TitleG. reflexivity.
      * eexists _, TitleG. reflexivity.
      * eexists _, TitleG. reflexivity.
    + eexists _, Main. reflexivity.
  - destruct rc as [|x rc].
    + destruct gr; simpl in *; try (intuition (try lia; done)).
      * destruct (assist_Reply a ctx c) as [t e] eqn:E.
        eexists _, ReplyG. simpl. unfold step_reply. simpl. rewrite E. reflexivity.
      * eexists _, ReplyG. reflexivity.
    + eexists _, Main. reflexivity.
  - destruct (snd replyResult) eqn:E;
      eexists _, Main; simpl; unfold step_main; simpl; rewrite E; reflexivity.
  - eexists _, Main. reflexivity.
  - eexists _, Main. reflexivity.
Qed.

Lemma returned_outcome st :
  Inv a ctx conv st -> returned (main st) = true ->
  outcome st = Some (expected_outcome a ctx conv).
Proof.
  destruct st as [m gt gr tc rc c lg].
  intros (Hm & _ & _) Hret. unfold outcome, expected_outcome. unfold_inv.
  destruct m; simpl in *; try done.
  - destruct Hm as (_ & e & He & ->).
    destruct (assist_Reply a ctx conv) as [rv re]. simpl in *. by subst.
  - destruct Hm as (-> & -> & -> & He).
    destruct (assist_Reply a ctx conv) as [rv re]. simpl in *. by subst.
Qed.

Lemma join_waits st :
  reachable a ctx conv st -> inspecting (main st) = true ->
  title_delivered st = true /\ reply_delivered st = true.
Proof.
  intros Hreach. destruct (reachable_Inv _ Hreach) as (Hm & Ht & Hr).
  destruct st as [m gt gr tc rc c lg]. unfold title_delivered, reply_delivered. unfold_inv.
  intros Hi. destruct m; simpl in *; try done;
    (split; [destruct gt|destruct gr]; simpl in *; intuition (try lia; done)).
Qed.


Lemma reachable_length st :
  reachable a ctx conv st ->
  (List.length (titleCh st) <= chan_cap /\ List.length (replyCh st) <= chan_cap)%nat.
Proof.
  intros Hreach. destruct (reachable_Inv _ Hreach) as (_ & Ht & Hr).
  destruct st as [m gt gr tc rc c lg]. unfold chan_cap. unfold_inv.
  split; [destruct gt|destruct gr]; simpl in *;
    intuition (simplify_eq/=; simpl; lia).
Qed.

Lemma sends_never_block st :
  reachable a ctx conv st ->
  (gtitle st <> T_unborn -> title_delivered st = false ->
   is_Some (step a ctx TitleG st))
  /\ (greply st <> R_unborn -> reply_delivered st = false ->
      is_Some (step a ctx ReplyG st)).
Proof.
  intros Hreach. destruct (reachable_Inv _ Hreach) as (_ & Ht & Hr).
  destruct st as [m gt gr tc rc c lg].
  unfold title_delivered, reply_delivered. unfold_inv.
  split; intros Hborn Hnot.
  - unfold step_title. destruct gt; simpl in *; try done.
    + by destruct (assist_Title a ctx c).
    + by destruct (title_failed title err).
    + destruct Ht as (_ & -> & _). done.
    + destruct Ht as (_ & -> & _). done.
  - unfold step_reply. destruct gr; simpl in *; try done.
    + by destruct (assist_Reply a ctx c).
    + destruct Hr as (_ & -> & _). done.
Qed.

Lemma reachable_run sched st :
  reachable a ctx conv st -> reachable a ctx conv (run a ctx sched st).
Proof.
  revert st. induction sched as [|t sched IH]; intros st Hreach; [done|].
  simpl. destruct (step a ctx t st) as [st'|] eqn:Hstep; apply IH; [|done].
  eapply rtc_r; [exact Hreach|]. by exists t.
Qed.

Lemma returned_nf st : returned (main st) = true -> Inv a ctx conv st -> nf (Step a ctx) st.
Proof.
  intros Hret (Hm & Ht & Hr) [st' [t Hstep]].
  destruct st as [m gt gr tc rc c lg]. unfold_inv.
  destruct t; simpl in Hstep.
  - unfold step_main in Hstep. by destruct m.
  - unfold step_title in Hstep. destruct m; try done; simpl in *;
      destruct gt; simpl in *; try done; lia.
  - unfold step_reply in Hstep. destruct m; try done; simpl in *;
      destruct gr; simpl in *; try done; lia.
Qed.

Lemma run_to_the_end : returned (main (run a ctx to_the_end (init conv))) = true.
Proof.
  unfold to_the_end, title_first. simpl. unfold step_title. simpl.
  destruct (assist_Title a ctx conv) as [t e]. simpl.
  unfold step_title. simpl. destruct (title_failed t e); simpl.
  - unfold step_reply. simpl. destruct (assist_Reply a ctx conv) as [rv [re|]]; done.
  - unfold step_reply. simpl. destruct (assist_Reply a ctx conv) as [rv [re|]]; done.
Qed.

Lemma runs_end : always_ends_with a ctx conv (expected_outcome a ctx conv).
Proof.
  split; [apply Step_sn|]. split.
  - intros st Hreach Hnf. pose proof (reachable_Inv _ Hreach) as HI.
    apply returned_outcome; [done|].
    destruct (returned (main st)) eqn:E; [done|].
    exfalso. apply Hnf. by apply Inv_progress.
  - exists (run a ctx to_the_end (init conv)).
    assert (reachable a ctx conv (run a ctx to_the_end (init conv))) as Hreach
      by apply reachable_run, rtc_refl.
    split; [done|]. apply returned_nf; [apply run_to_the_end|by apply reachable_Inv].
Qed.

Lemma run_title_first :
  title_delivered (run a ctx title_first (init conv)) = true
  /\ reply_delivered (run a ctx title_first (init conv)) = false.
Proof.
  unfold title_first. simpl. unfold step_title. simpl.
  destruct (assist_Title a ctx conv) as [t e]. simpl.
  unfold step_title. simpl. destruct (title_failed t e); done.
Qed.

Lemma run_reply_first :
  reply_delivered (run a ctx reply_first (init conv)) = true
  /\ title_delivered (run a ctx reply_first (init conv)) = false.
Proof.
  unfold reply_first. simpl. unfold step_reply. simpl.
  destruct (assist_Reply a ctx conv) as [t e]. done.
Qed.

Lemma title_failed_spec title err :
  title_failed title err = true <-> err <> None \/ blank title.
Proof.
  unfold title_failed. rewrite orb_true_iff, String.eqb_eq, TrimSpace_blank.
  destruct err; simpl; intuition congruence.
Qed.

Lemma sent_title_untitled :
  snd (assist_Title a ctx conv) <> None \/ blank (fst (assist_Title a ctx conv)) ->
  sent_title a ctx conv = untitled.
Proof.
  intros H. unfold sent_title. destruct (assist_Title a ctx conv) as [t e].
  simpl in H. apply title_failed_spec in H. by rewrite H.
Qed.

Lemma sent_title_unmodified :
  snd (assist_Title a ctx conv) = None -> ~ blank (fst (assist_Title a ctx conv)) ->
  sent_title a ctx conv = fst (assist_Title a ctx conv).
Proof.
  intros He Hb. unfold sent_title. destruct (assist_Title a ctx conv) as [t e].
  simpl in *. destruct (title_failed t e) eqn:E; [|done].
  apply title_failed_spec in E. tauto.
Qed.

Lemma reachable_conversation st :
  reachable a ctx conv st -> snd (assist_Reply a ctx conv) <> None ->
  conversation st = conv.
Proof.
  intros Hreach He. destruct (reachable_Inv _ Hreach) as (Hm & _ & _).
  unfold main_inv in Hm. destruct (main st); intuition congruence.
Qed.

(** C2. For every run in which the reply operation returns an error, whatever
    the title operation returns: the run ends, it ends with that error wrapped
    as an internal error and a [nil] conversation, and the conversation given
    is never written. *)
Theorem reply_error_is_returned e :
  snd (assist_Reply a ctx conv) = Some e ->
  always_ends_with a ctx conv (Failed (twirp_InternalErrorWith e))
  /\ forall st, reachable a ctx conv st -> conversation st = conv.
Proof.
  intros He. split.
  - pose proof runs_end as Hend. unfold expected_outcome in Hend.
    destruct (assist_Reply a ctx conv) as [rv re]. simpl in He. by subst.
  - intros st Hreach. apply reachable_conversation; [done|congruence].
Qed.

(** C3. For every run in which the title operation returns an error, or a
    string that is empty or white space only: the run ends as the reply
    decides, never with the error of the title. When the reply succeeds it
    ends with the title of the conversation equal to "Untitled conversation",
    its messages as they were, and the reply; when the reply fails it ends
    with the error of the reply. *)
Theorem title_failure_falls_back :
  snd (assist_Title a ctx conv) <> None \/ blank (fst (assist_Title a ctx conv)) ->
  always_ends_with a ctx conv
    match assist_Reply a ctx conv with
    | (reply, None) =>
      Joined {| Title := "Untitled conversation"; Messages := Messages conv |} reply
    | (_, Some e) => Failed (twirp_InternalErrorWith e)
    end.
Proof.
  intros Htitle. pose proof runs_end as Hend. unfold expected_outcome in Hend.
  rewrite (sent_title_untitled Htitle) in Hend.
  destruct (assist_Reply a ctx conv) as [rv [e|]]; exact Hend.
Qed.

Lemma outcome_returned_conversation st c reply :
  outcome st = Some (Joined c reply) ->
  returned_conversation st =
    Some {| returned_Title := Title c; returned_Reply := reply;
            returned_Messages := Messages c |}.
Proof.
  unfold outcome, returned_conversation.
  destruct (main st); try done. by intros [= <- <-].
Qed.

(** C7. For every run in which the title operation returns a string that is
    not blank, without error, and the reply operation returns without error:
    the run ends with the title of the conversation equal to exactly that
    title, its messages as they were, and with exactly that reply (whether or
    not the reply is blank); and the conversation returned has that title
    and that reply in its title and reply fields. *)
Theorem both_results_unmodified :
  snd (assist_Title a ctx conv) = None ->
  ~ blank (fst (assist_Title a ctx conv)) ->
  snd (assist_Reply a ctx conv) = None ->
  always_ends_with a ctx conv
    (Joined {| Title := fst (assist_Title a ctx conv); Messages := Messages conv |}
       (fst (assist_Reply a ctx conv)))
  /\ (forall st, reachable a ctx conv st -> nf (Step a ctx) st ->
        returned_conversation st =
          Some {| returned_Title := fst (assist_Title a ctx conv);
                  returned_Reply := fst (assist_Reply a ctx conv);
                  returned_Messages := Messages conv |}).
Proof.
  intros Hte Htb Hre. pose proof runs_end as Hend. unfold expected_outcome in Hend.
  rewrite (sent_title_unmodified Hte Htb) in Hend.
  assert (always_ends_with a ctx conv
            (Joined {| Title := fst (assist_Title a ctx conv);
                       Messages := Messages conv |}
               (fst (assist_Reply a ctx conv)))) as Hjoin.
  { destruct (assist_Reply a ctx conv) as [rv re]. simpl in *. subst. exact Hend. }
  split; [exact Hjoin|].
  intros st Hreach Hnf. destruct Hjoin as (_ & Hout & _).
  by rewrite (outcome_returned_conversation _ _ _ (Hout st Hreach Hnf)).
Qed.

(** C8. In every state of every run: each channel holds at most one value
    and a goroutine that was started and has not delivered can move (its send
    never blocks); once the orchestrating routine is at the test of line 181
    or past it, both goroutines have sent their result and both results have
    been received, and at the test it holds exactly the two values sent.
    Which goroutine sends first is open: a state with the title sent and the
    reply not is reachable, and so is one with the reply sent and the title
    not. *)
Theorem join_waits_for_both :
  (forall st, reachable a ctx conv st ->
     (List.length (titleCh st) <= 1 /\ List.length (replyCh st) <= 1)%nat
     /\ (gtitle st <> T_unborn -> title_delivered st = false ->
         is_Some (step a ctx TitleG st))
     /\ (greply st <> R_unborn -> reply_delivered st = false ->
         is_Some (step a ctx ReplyG st))
     /\ (inspecting (main st) = true ->
         title_delivered st = true /\ reply_delivered st = true
         /\ titleCh st = [] /\ replyCh st = [])
     /\ (forall title replyResult, main st = M_if_err title replyResult ->
         title = sent_title a ctx conv /\ replyResult = assist_Reply a ctx conv))
  /\ (exists st, reachable a ctx conv st
                 /\ title_delivered st = true /\ reply_delivered st = false)
  /\ (exists st, reachable a ctx conv st
                 /\ reply_delivered st = true /\ title_delivered st = false).
Proof.
  split; [|split].
  - intros st Hreach. split; [by apply reachable_length|].
    destruct (sends_never_block _ Hreach) as [Hst Hsr].
    split; [exact Hst|]. split; [exact Hsr|]. split.
    + intros Hi. destruct (join_waits _ Hreach Hi) as [Ht Hr].
      destruct (reachable_Inv _ Hreach) as (_ & Hti & Hri).
      destruct st as [m gt gr tc rc c lg].
      unfold title_delivered, reply_delivered in *. unfold_inv.
      split_and!; [done|done| |].
      * destruct gt; try done. destruct m; simpl in *; try done; intuition lia.
      * destruct gr; try done. destruct m; simpl in *; try done; intuition lia.
    + intros title replyResult Hm.
      destruct (reachable_Inv _ Hreach) as (Hmi & _ & _).
      unfold main_inv in Hmi. rewrite Hm in Hmi. tauto.
  - exists (run a ctx title_first (init conv)).
    split; [apply reachable_run, rtc_refl|apply run_title_first].
  - exists (run a ctx reply_first (init conv)).
    split; [apply reachable_run, rtc_refl|apply run_reply_first].
Qed.

End Orchestration.

Example reply_error_is_returned_witness :
  always_ends_with reply_fails context_Background example_conversation
    (Failed (twirp_InternalErrorWith (errors_New "openai: 503")))
  /\ forall st, reachable reply_fails context_Background example_conversation st ->
                conversation st = example_conversation.
Proof.
  exact (reply_error_is_returned reply_fails context_Background example_conversation
           (errors_New "openai: 503") eq_refl).
Defined.

Example title_failure_falls_back_witness :
  always_ends_with title_blank context_Background example_conversation
    (Joined {| Title := "Untitled conversation";
               Messages := Messages example_conversation |}
       "It is sunny in Barcelona.").
Proof.
  assert (blank "   ") as Hblank
    by (exists [32; 32; 32]; split; [repeat constructor; simpl; tauto|reflexivity]).
  exact (title_failure_falls_back title_blank context_Background example_conversation
           (or_intror Hblank)).
Defined.

Example both_results_unmodified_witness :
  always_ends_with both_succeed context_Background example_conversation
    (Joined {| Title := "Barcelona weather";
               Messages := Messages example_conversation |}
       "It is sunny in Barcelona.")
  /\ (forall st,
        reachable both_succeed context_Background example_conversation st ->
        nf (Step both_succeed context_Background) st ->
        returned_conversation st =
          Some {| returned_Title := "Barcelona weather";
                  returned_Reply := "It is sunny in Barcelona.";
                  returned_Messages := Messages example_conversation |}).
Proof.
  assert (~ blank "Barcelona weather") as Hfull
    by (intros Hb; apply TrimSpace_blank in Hb; vm_compute in Hb; discriminate).
  exact (both_results_unmodified both_succeed context_Background example_conversation
           eq_refl Hfull eq_refl).
Defined.

(** * The two fallback titles *)

Lemma clean_title_fallback resp err :
  no_title_in resp err -> assistant.clean_title resp err = (assistant.title_fallback, None).
Proof.
  unfold no_title_in, assistant.clean_title. intros [Herr|Hresp].
  - destruct err; [reflexivity|done].
  - destruct (negb (is_nil err)); [reflexivity|]. simpl orb.
    destruct (assistant.Choices resp) as [|c cs]; [reflexivity|].
    simpl. by rewrite Hresp.
Qed.

Lemma Title_is_clean_title cli ctx conv r :
  assistant.Title cli ctx conv = Some r ->
  exists params, r = assistant.clean_title (fst (cli ctx params)) (snd (cli ctx params)).
Proof.
  unfold assistant.Title. intros H.
  destruct (if String.eqb _ _ then _ else _) as [m|]; [|done]. simpl in H.
  eexists. destruct (cli ctx _) as [resp err] eqn:E in H.
  injection H as <-. by rewrite E.
Qed.

Lemma run_title_first_channel a ctx conv :
  titleCh (run a ctx title_first (init conv)) = [sent_title a ctx conv].
Proof.
  unfold title_first, sent_title. simpl. unfold step_title. simpl.
  destruct (assist_Title a ctx conv) as [t e]. simpl.
  unfold step_title. simpl. destruct (title_failed t e); done.
Qed.

Lemma reachable_titleCh a ctx conv st title :
  reachable a ctx conv st -> In title (titleCh st) -> title = sent_title a ctx conv.
Proof.
  intros Hreach Hin. destruct (reachable_Inv _ _ _ _ Hreach) as (_ & Ht & _).
  unfold title_inv in Ht.
  destruct (gtitle st); try (destruct Ht as (_ & Hch & _); by rewrite Hch in Hin).
  - destruct Ht as [_ Hch]. by rewrite Hch in Hin.
  - destruct Ht as [_ Hch]. by rewrite Hch in Hin.
  - destruct Ht as [[_ Hch]|[_ Hch]]; rewrite Hch in Hin; [|done].
    by destruct Hin as [<-|[]].
Qed.

Lemma reachable_Joined_title a ctx conv st c reply :
  reachable a ctx conv st -> outcome st = Some (Joined c reply) ->
  Title c = sent_title a ctx conv.
Proof.
  intros Hreach Hout. destruct (reachable_Inv _ _ _ _ Hreach) as (Hm & _ & _).
  unfold main_inv in Hm. unfold outcome in Hout.
  destruct (main st); try done. injection Hout as <- <-.
  destruct Hm as (-> & _). reflexivity.
Qed.

(** C9. The title the orchestrator substitutes when the title operation
    returns an error or a blank string is exactly "Untitled conversation":
    in every run with such a title operation, whatever the schedule, the
    only value ever sent on the title channel is that string, it is sent
    (the state with the title goroutine run to its end has it in the
    channel), and a run that ends with a conversation ends with that string
    as its title. It is another constant than "New conversation", which
    [Title] itself returns, without error, when the call to the model fails,
    has no choice, or leaves nothing once cleaned; and the orchestrator
    does not take that internal fallback for a failure. *)
Theorem fallback_titles_differ :
  (forall a ctx conv,
     snd (assist_Title a ctx conv) <> None \/ blank (fst (assist_Title a ctx conv)) ->
     (forall st title, reachable a ctx conv st -> In title (titleCh st) ->
                       title = "Untitled conversation")
     /\ (exists st, reachable a ctx conv st /\ titleCh st = ["Untitled conversation"])
     /\ (forall st c reply, reachable a ctx conv st ->
                            outcome st = Some (Joined c reply) ->
                            Title c = "Untitled conversation"))
  /\ "Untitled conversation" <> "New conversation"
  /\ (forall resp err,
        no_title_in resp err ->
        assistant.clean_title resp err = ("New conversation", None))
  /\ (forall cli ctx conv r,
        assistant.Title cli ctx conv = Some r ->
        exists params,
          r = assistant.clean_title (fst (cli ctx params)) (snd (cli ctx params)))
  /\ title_failed "New conversation" None = false.
Proof.
  split_and!; try done.
  - intros a ctx conv H.
    pose proof (sent_title_untitled a ctx conv H) as Hsent.
    change untitled with "Untitled conversation" in Hsent.
    split_and!.
    + intros st title Hreach Hin. rewrite <- Hsent. by eapply reachable_titleCh.
    + exists (run a ctx title_first (init conv)). split.
      * by apply reachable_run, rtc_refl.
      * by rewrite run_title_first_channel, Hsent.
    + intros st c reply Hreach Hout. rewrite <- Hsent.
      by eapply reachable_Joined_title.
  - apply clean_title_fallback.
  - apply Title_is_clean_title.
Qed.

(** * Further properties: telemetry *)

(** X1. When [InitTelemetry] returns no error, both providers are registered
    process-wide, and they are the providers the SDK builds from one and the
    same resource, the one [resource.New] returned for the service name: the
    meter provider with a reader that exports every 10 seconds to the metric
    exporter, the tracer provider with the trace exporter as its batcher
    (what the SDK adds to that resource from the environment of the process
    is the SDK's to say). The call did exactly three things, in this order:
    set the meter provider, set the tracer provider, log the initialisation. *)
Theorem InitTelemetry_registers_both sdk ctx serviceName w :
  snd (fst (InitTelemetry sdk ctx serviceName w)) = None ->
  exists res mp tp,
    res = fst (resource_New sdk ctx "https://opentelemetry.io/schemas/1.24.0"
                 [attribute_String "service.name" serviceName])
    /\ mp = sdkmetric_NewMeterProvider sdk
              {| reader_exporter := fst (stdoutmetric_New sdk true);
                 reader_interval := 10 * 1000000000 |} res
    /\ tp = sdktrace_NewTracerProvider sdk (fst (stdouttrace_New sdk true)) res
    /\ globalMeterProvider (snd (InitTelemetry sdk ctx serviceName w)) = Some mp
    /\ globalTracerProvider (snd (InitTelemetry sdk ctx serviceName w)) = Some tp
    /\ added w (snd (InitTelemetry sdk ctx serviceName w))
         [EvSetMeterProvider mp; EvSetTracerProvider tp;
          EvSlogInfo "OpenTelemetry initialized"].
Proof.
  intros Herr.
  destruct (construction_failure sdk ctx serviceName) as [[stage e]|] eqn:E.
  - unfold construction_failure, service_resource in E.
    unfold InitTelemetry in Herr.
    destruct (resource_New _ _ _ _) as [res [e1|]]; [done|].
    destruct (stdoutmetric_New _ _) as [mexp [e2|]]; [done|].
    destruct (stdouttrace_New _ _) as [texp [e3|]]; done.
  - rewrite (InitTelemetry_success _ _ _ _ E). simpl.
    eexists _, _, _. split_and!; try reflexivity.
    unfold added. simpl. by rewrite <- !app_assoc.
Qed.

Example InitTelemetry_registers_both_witness :
  exists res mp tp,
    res = fst (resource_New sdk_ok context_Background
                 "https://opentelemetry.io/schemas/1.24.0"
                 [attribute_String "service.name" "acai-server"])
    /\ mp = sdkmetric_NewMeterProvider sdk_ok
              {| reader_exporter := fst (stdoutmetric_New sdk_ok true);
                 reader_interval := 10 * 1000000000 |} res
    /\ tp = sdktrace_NewTracerProvider sdk_ok (fst (stdouttrace_New sdk_ok true)) res
    /\ globalMeterProvider (snd (InitTelemetry sdk_ok context_Background "acai-server"
                                initial_World)) = Some mp
    /\ globalTracerProvider (snd (InitTelemetry sdk_ok context_Background "acai-server"
                                 initial_World)) = Some tp
    /\ added initial_World
         (snd (InitTelemetry sdk_ok context_Background "acai-server" initial_World))
         [EvSetMeterProvider mp; EvSetTracerProvider tp;
          EvSlogInfo "OpenTelemetry initialized"].
Proof.
  exact (InitTelemetry_registers_both sdk_ok context_Background "acai-server"
           initial_World eq_refl).
Defined.

(** X2. Of the two results of [InitTelemetry], exactly one is [nil]: a
    shutdown function comes without an error, an error without a shutdown
    function. *)
Theorem InitTelemetry_shutdown_xor_error sdk ctx serviceName w :
  fst (fst (InitTelemetry sdk ctx serviceName w)) = None
  <-> snd (fst (InitTelemetry sdk ctx serviceName w)) <> None.
Proof.
  unfold InitTelemetry.
  destruct (resource_New _ _ _ _) as [res [e1|]]; [done|].
  destruct (stdoutmetric_New _ _) as [mexp [e2|]]; [done|].
  destruct (stdouttrace_New _ _) as [texp [e3|]]; done.
Qed.

Lemma shutdown_closure_world sdk tp mp ctx w :
  globalMeterProvider (snd (shutdown_closure sdk tp mp ctx w)) = globalMeterProvider w
  /\ globalTracerProvider (snd (shutdown_closure sdk tp mp ctx w)) = globalTracerProvider w
  /\ tracer_shutdowns (events (snd (shutdown_closure sdk tp mp ctx w)))
     = tracer_shutdowns (events w) ++ [(tp, ctx)].
Proof.
  destruct (TracerProvider_Shutdown sdk tp ctx (events w)) as [e|] eqn:E.
  - rewrite (shutdown_closure_trace_fails _ _ _ _ _ _ E). simpl.
    split_and!; try done. unfold tracer_shutdowns. by rewrite omap_app.
  - rewrite (shutdown_closure_trace_ok _ _ _ _ _ E). simpl.
    split_and!; try done. unfold tracer_shutdowns. rewrite !omap_app. simpl.
    by rewrite app_nil_r.
Qed.

Lemma invoke_all_cons sd ctx ctxs w :
  invoke_all sd (ctx :: ctxs) w =
    (fst (sd ctx w) :: fst (invoke_all sd ctxs (snd (sd ctx w))),
     snd (invoke_all sd ctxs (snd (sd ctx w)))).
Proof.
  simpl. unfold bind, ret. destruct (sd ctx w) as [e w'].
  simpl. by destruct (invoke_all sd ctxs w').
Qed.

(** X3. The shutdown function [InitTelemetry] returns unregisters nothing and
    has no guard against a second call: invoked any number of times, it
    leaves the providers registered process-wide, returns one result per
    invocation, and shuts the registered tracer provider down again at every
    invocation, with the context of that invocation. *)
Theorem shutdown_every_invocation sdk ctx0 serviceName w0 sd err w1 ctxs w :
  InitTelemetry sdk ctx0 serviceName w0 = (Some sd, err, w1) ->
  exists tp,
    globalTracerProvider w1 = Some tp
    /\ globalMeterProvider (snd (invoke_all sd ctxs w)) = globalMeterProvider w
    /\ globalTracerProvider (snd (invoke_all sd ctxs w)) = globalTracerProvider w
    /\ List.length (fst (invoke_all sd ctxs w)) = List.length ctxs
    /\ tracer_shutdowns (events (snd (invoke_all sd ctxs w)))
       = tracer_shutdowns (events w) ++ map (fun ctx => (tp, ctx)) ctxs.
Proof.
  intros Hinit.
  pose proof (InitTelemetry_returns_closure _ _ _ _ _ _ _ Hinit) as Hok.
  rewrite (InitTelemetry_success _ _ _ _ Hok) in Hinit.
  injection Hinit as <- _ <-. simpl.
  eexists. split; [reflexivity|].
  revert w. induction ctxs as [|ctx ctxs IH]; intros w.
  - simpl. by rewrite app_nil_r.
  - rewrite invoke_all_cons.
    match goal with |- context [shutdown_closure ?s ?t ?m ctx w] =>
      pose proof (shutdown_closure_world s t m ctx w) as (Hm & Ht & He);
      destruct (shutdown_closure s t m ctx w) as [e w'] end.
    cbn [fst snd] in *. specialize (IH w').
    match goal with |- context [invoke_all ?s ctxs w'] =>
      destruct (invoke_all s ctxs w') as [errs w''] end.
    simpl in *. destruct IH as (IH1 & IH2 & IH3 & IH4).
    rewrite IH4, He, <- app_assoc. split_and!; [congruence|congruence|by rewrite IH3|done].
Qed.

Example shutdown_every_invocation_witness :
  exists tp,
    globalTracerProvider (snd example_init) = Some tp
    /\ globalMeterProvider
         (snd (invoke_all example_shutdown [context_Background; context_Derived 1]
                 (snd example_init)))
       = globalMeterProvider (snd example_init)
    /\ globalTracerProvider
         (snd (invoke_all example_shutdown [context_Background; context_Derived 1]
                 (snd example_init)))
       = globalTracerProvider (snd example_init)
    /\ List.length
         (fst (invoke_all example_shutdown [context_Background; context_Derived 1]
                 (snd example_init)))
       = List.length [context_Background; context_Derived 1]
    /\ tracer_shutdowns
         (events (snd (invoke_all example_shutdown
                         [context_Background; context_Derived 1] (snd example_init))))
       = tracer_shutdowns (events (snd example_init))
         ++ map (fun ctx => (tp, ctx)) [context_Background; context_Derived 1].
Proof.
  exact (shutdown_every_invocation sdk_trace_shutdown_fails context_Background
           "acai-server" initial_World example_shutdown None (snd example_init)
           [context_Background; context_Derived 1] (snd example_init) eq_refl).
Defined.

(** * Further properties: metrics middleware *)

Lemma run_prog_wrapped {W} `{ResponseWriter W} p (sw : statusCapturingWriter W) :
  unwrap (run_prog p sw) = run_prog (denied p) (inner sw).
Proof.
  revert sw.
  induction p as [| |k v rest IH|code rest IH|body rest IH|i rest IH]; intros sw;
    cbn [run_prog denied].
  - reflexivity.
  - reflexivity.
  - cbn [Header_Set statusCapturingWriter_ResponseWriter].
    destruct (Header_Set k v (inner sw)) as [[] i|i]; cbn [on_inner]; [|reflexivity].
    by rewrite IH.
  - cbn [WriteHeader statusCapturingWriter_ResponseWriter].
    unfold statusCapturingWriter_WriteHeader.
    destruct (WriteHeader code (inner sw)) as [[] i|i]; cbn [on_inner]; [|reflexivity].
    by rewrite IH.
  - cbn [Write statusCapturingWriter_ResponseWriter].
    destruct (Write body (inner sw)) as [res i|i]; cbn [on_inner]; [|reflexivity].
    by rewrite IH.
  - cbn [implements statusCapturingWriter_ResponseWriter]. apply IH.
Qed.

Lemma run_prog_denied {W} `{ResponseWriter W} p (w : W) :
  uses_optional p w = false -> run_prog (denied p) w = run_prog p w.
Proof.
  revert w.
  induction p as [| |k v rest IH|code rest IH|body rest IH|i rest IH]; intros w;
    cbn [run_prog denied uses_optional].
  - reflexivity.
  - reflexivity.
  - destruct (Header_Set k v w) as [[] w'|w']; [apply IH|reflexivity].
  - destruct (WriteHeader code w) as [[] w'|w']; [apply IH|reflexivity].
  - destruct (Write body w) as [res w'|w']; [apply IH|reflexivity].
  - destruct (implements W i); [done|]. simpl. apply IH.
Qed.

Lemma MetricsMiddleware_fst next {W} `{ResponseWriter W} (w : W) r t :
  fst (MetricsMiddleware next w r t) = unwrap (ServeHTTP next (wrapped w) r).
Proof.
  rewrite MetricsMiddleware_eq.
  by destruct (ServeHTTP next (wrapped w) r) as [[] sw|sw].
Qed.

(** X4. What the middleware changes for the handler, and what it does not.
    Run under the middleware, the handler ends (returns or panics) and leaves
    the writer exactly as it would, run on that writer directly, if every
    type assertion of the writer to an optional interface ([http.Flusher],
    [http.Hijacker], ...) failed: the wrapper has none of them. So for a
    handler that finds no optional interface on the writer anyway, the
    middleware is transparent. Whatever the handler does, the clock is read
    twice when it returns and once when it panics, and what was recorded
    before the request is kept. *)
Theorem MetricsMiddleware_transparent next {W} `{ResponseWriter W} (w : W) r t :
  fst (MetricsMiddleware next w r t) = run_prog (denied (next r)) w
  /\ (uses_optional (next r) w = false ->
      fst (MetricsMiddleware next w r t) = ServeHTTP next w r)
  /\ clock (snd (MetricsMiddleware next w r t)) = clock t
  /\ reads (snd (MetricsMiddleware next w r t))
     = (reads t + if handler_returns next w r then 2 else 1)%nat
  /\ exists ms, recorded (snd (MetricsMiddleware next w r t)) = recorded t ++ ms
                /\ if handler_returns next w r
                   then (2 <= List.length ms <= 3)%nat else ms = [].
Proof.
  assert (fst (MetricsMiddleware next w r t) = run_prog (denied (next r)) w) as Hfst.
  { rewrite MetricsMiddleware_fst. unfold ServeHTTP. by rewrite run_prog_wrapped. }
  split; [exact Hfst|]. split.
  { intros Hopt. rewrite Hfst. by apply run_prog_denied. }
  unfold handler_returns. rewrite MetricsMiddleware_eq.
  destruct (ServeHTTP next (wrapped w) r) as [[] sw|sw]; simpl.
  - split; [done|]. split; [lia|].
    eexists. split; [reflexivity|]. destruct (400 <=? _); simpl; lia.
  - split; [done|]. split; [lia|]. exists []. by rewrite app_nil_r.
Qed.

(** X5. The status the wrapper captures is the code of the last call of
    [WriteHeader] the handler made under the middleware, and 200 when it
    made none: a later call replaces the code of an earlier one, and a call
    that panics has set its code before. *)
Theorem captured_status_is_last_WriteHeader next {W} `{ResponseWriter W} (w : W) r :
  captured_status next w r = default 200 (last (header_codes (next r) (wrapped w))).
Proof.
  unfold captured_status, ServeHTTP. by rewrite run_prog_status.
Qed.

Lemma counter_total_app i ms1 ms2 :
  counter_total i (ms1 ++ ms2) = counter_total i ms1 + counter_total i ms2.
Proof.
  induction ms1 as [|[j c incr attrs|j c v attrs] ms1 IH]; simpl; [done| |done].
  rewrite IH. lia.
Qed.

Lemma serve_all_cons {W} `{ResponseWriter W} next (w : W) r reqs t :
  serve_all ((next, w, r) :: reqs) t =
    (fst (MetricsMiddleware next w r t)
       :: fst (serve_all reqs (snd (MetricsMiddleware next w r t))),
     snd (serve_all reqs (snd (MetricsMiddleware next w r t)))).
Proof.
  simpl. unfold bind, ret. destruct (MetricsMiddleware next w r t) as [w' t'].
  simpl. by destruct (serve_all reqs t').
Qed.

(** X6. Over any sequence of requests served one after the other through the
    middleware, the request counter grows by the number of requests whose
    handler returns, the latency histogram gets one value for each of them,
    and the error counter grows by the number of those whose captured status
    is at least 400; a request whose handler panics adds to none of the
    three. So the error counter never grows by more than the request
    counter, nor the request counter by more than the number of requests. *)
Theorem serve_all_counts {W} `{ResponseWriter W} (reqs : list (Handler * W * Request)) t :
  counter_total reqCounter (recorded (snd (serve_all reqs t)))
    = counter_total reqCounter (recorded t)
      + Z.of_nat (List.length (returned_requests reqs))
  /\ counter_total errCounter (recorded (snd (serve_all reqs t)))
     = counter_total errCounter (recorded t)
       + Z.of_nat (List.length (error_requests reqs))
  /\ List.length (latencies (recorded (snd (serve_all reqs t))))
     = (List.length (latencies (recorded t)) + List.length (returned_requests reqs))%nat
  /\ (List.length (error_requests reqs) <= List.length (returned_requests reqs)
      <= List.length reqs)%nat
  /\ List.length (fst (serve_all reqs t)) = List.length reqs.
Proof.
  revert t. induction reqs as [|[[next w] r] reqs IH]; intros t.
  - simpl. split_and!; try done; lia.
  - rewrite serve_all_cons. cbn [fst snd].
    destruct (IH (snd (MetricsMiddleware next w r t)))
      as (IH1 & IH2 & IH3 & [IH4 IH5] & IH6).
    rewrite IH1, IH2, IH3. cbn [List.length]. rewrite IH6.
    unfold error_requests, returned_requests in *. cbn [List.filter].
    destruct (handler_returns next w r) eqn:Hret.
    + rewrite recorded_of_returned by done. cbn [List.filter].
      rewrite !counter_total_app, !latencies_app.
      destruct (400 <=? captured_status next w r); simpl; rewrite ?length_app; simpl;
        split_and!; try done; lia.
    + rewrite recorded_of_panicked by done. split_and!; try done; lia.
Qed.

(** * Further properties: the [Title] method *)


Lemma first_user_message_cases ms :
  (exists pre m post,
     ms = pre ++ m :: post /\ Forall passed_over pre
     /\ Role m = RoleUser /\ ~ blank (Content m)
     /\ assistant.first_user_message ms = Content m)
  \/ (Forall passed_over ms /\ assistant.first_user_message ms = EmptyString).
Proof.
  induction ms as [|m ms IH]; [by right|]. simpl.
  destruct (RoleKind_eqb (Role m) RoleUser) eqn:Er; simpl.
  - destruct (String.eqb (strings.TrimSpace (Content m)) "") eqn:Eb; simpl.
    + apply String.eqb_eq, TrimSpace_blank in Eb.
      destruct IH as [(pre & m' & post & -> & Hpre & IH)|[Hall IH]].
      * left. exists (m :: pre), m', post. split; [done|].
        split; [|done]. constructor; [by right|done].
      * right. split; [|done]. constructor; [by right|done].
    + left. exists [], m, ms. split_and!; try done.
      * by destruct (Role m).
      * intros Hb. apply TrimSpace_blank in Hb. rewrite Hb in Eb. done.
  - assert (passed_over m) as Hm by (left; by destruct (Role m)).
    destruct IH as [(pre & m' & post & -> & Hpre & IH)|[Hall IH]].
    + left. exists (m :: pre), m', post. split; [done|].
      split; [|done]. by constructor.
    + right. split; [|done]. by constructor.
Qed.

Lemma not_blank_nonempty s : ~ blank s -> s <> EmptyString.
Proof. intros Hb ->. apply Hb. exists []. by split; [constructor|]. Qed.

(** X8. What [Title] sends to the model, on a conversation with messages: the
    model gpt-4.1, and two messages, the system prompt and one user message.
    The user message is the content of the first message of the user that is
    not blank; when the conversation has none, it is the content of its first
    message, whoever wrote it. The result of [Title] is that answer, cleaned. *)
Theorem Title_prompt cli ctx conv :
  Messages conv <> [] ->
  exists input,
    title_input (Messages conv) input
    /\ assistant.Title cli ctx conv =
       Some (assistant.clean_title
               (fst (cli ctx {| assistant.Model := "gpt-4.1";
                                assistant.ChatMessages :=
                                  [assistant.openai_SystemMessage assistant.system_prompt;
                                   assistant.openai_UserMessage input] |}))
               (snd (cli ctx {| assistant.Model := "gpt-4.1";
                                assistant.ChatMessages :=
                                  [assistant.openai_SystemMessage assistant.system_prompt;
                                   assistant.openai_UserMessage input] |}))).
Proof.
  intros Hne. unfold assistant.Title, title_input.
  destruct (first_user_message_cases (Messages conv))
    as [(pre & m & post & Hms & Hpre & Hr & Hb & ->)|[Hall ->]].
  - exists (Content m). split; [left; by exists pre, m, post|].
    destruct (String.eqb (Content m) "") eqn:E.
    + apply String.eqb_eq in E. by apply not_blank_nonempty in Hb.
    + simpl. by destruct (cli ctx _).
  - destruct (Messages conv) as [|m ms]; [done|].
    exists (Content m). split; [right; split; [done|by exists m, ms]|].
    simpl. by destruct (cli ctx _).
Qed.

Example Title_prompt_witness :
  exists input,
    title_input (Messages untitled_conversation) input
    /\ assistant.Title example_client context_Background untitled_conversation =
       Some (assistant.clean_title
               (fst (example_client context_Background
                       {| assistant.Model := "gpt-4.1";
                          assistant.ChatMessages :=
                            [assistant.openai_SystemMessage assistant.system_prompt;
                             assistant.openai_UserMessage input] |}))
               (snd (example_client context_Background
                       {| assistant.Model := "gpt-4.1";
                          assistant.ChatMessages :=
                            [assistant.openai_SystemMessage assistant.system_prompt;
                             assistant.openai_UserMessage input] |}))).
Proof.
  assert (Messages untitled_conversation <> []) as Hne by done.
  exact (Title_prompt example_client context_Background untitled_conversation Hne).
Defined.

(** ** The title after cleaning *)

Lemma length_string_of b : String.length (string_of b) = List.length b.
Proof. induction b as [|c b IH]; simpl; [done|by rewrite IH]. Qed.

Lemma length_bytes_of s : List.length (bytes_of s) = String.length s.
Proof. by rewrite <- (string_of_bytes_of s) at 2; rewrite length_string_of. Qed.

Lemma replace_byte_absent o n s c :
  n <> o -> In c (strings.replace_nonempty s [o] [n] 0) -> c <> o.
Proof.
  intros Hn. induction s as [|x s IH]; [done|].
  cbn [strings.replace_nonempty strings.has_prefix].
  destruct (Ascii.eqb o x) eqn:E.
  - destruct s; cbn [andb app len List.length Nat.sub]; (intros [<-|H]; [done|by apply IH]).
  - rewrite andb_false_l. intros [<-|H]; [|by apply IH].
    intros ->. by rewrite Ascii.eqb_refl in E.
Qed.

Lemma ReplaceAll_no_newline s c :
  In c (bytes_of (strings.ReplaceAll s assistant.newline " ")) -> c <> ascii_of_nat 10.
Proof.
  unfold strings.ReplaceAll.
  change (String.eqb assistant.newline " ") with false. cbv iota.
  change (bytes_of assistant.newline) with [ascii_of_nat 10]. cbv iota.
  change (bytes_of " ") with [ascii_of_nat 32].
  rewrite bytes_of_string_of. by apply replace_byte_absent.
Qed.

Lemma trimLeftASCII_suffix s as_ : exists pre, s = pre ++ strings.trimLeftASCII s as_.
Proof.
  induction s as [|c s [pre IH]]; simpl; [by exists []|].
  destruct (as_ (ord c)); [|by exists []].
  exists (c :: pre). simpl. by rewrite <- IH.
Qed.

Lemma trimLeftASCII_head s as_ c rest :
  strings.trimLeftASCII s as_ = c :: rest -> as_ (ord c) = false.
Proof.
  induction s as [|x s IH]; simpl; [done|].
  destruct (as_ (ord x)) eqn:E; [done|]. by intros [= <- _].
Qed.

Lemma trimRightASCII_at_take s as_ n :
  exists k, (k <= n)%nat /\ strings.trimRightASCII_at s as_ n = take k s.
Proof.
  induction n as [|n (k & Hk & IH)]; simpl; [by exists 0%nat|].
  destruct (as_ _); [exists k; split; [lia|done]|by exists (S n)].
Qed.

Lemma trimRightASCII_at_last s as_ n pre c :
  (n <= List.length s)%nat ->
  strings.trimRightASCII_at s as_ n = pre ++ [c] -> as_ (ord c) = false.
Proof.
  induction n as [|n IH]; intros Hn; simpl.
  - rewrite take_0. by destruct pre.
  - destruct (as_ (ord (nth n s zero))) eqn:E; [apply IH; lia|].
    intros Ht.
    destruct (lookup_lt_is_Some_2 s n ltac:(lia)) as [x Hx].
    rewrite (take_S_r s n x Hx) in Ht. apply app_inj_tail in Ht as [_ <-].
    by rewrite (nth_lookup_Some s n zero x Hx) in E.
Qed.

Lemma Trim_bytes_cutset b :
  strings.Trim_bytes b (bytes_of assistant.title_cutset)
  = strings.trimLeftASCII
      (strings.trimRightASCII b
         (fun z => existsb (fun c => ord c =? z) (bytes_of assistant.title_cutset)))
      (fun z => existsb (fun c => ord c =? z) (bytes_of assistant.title_cutset)).
Proof. by destruct b. Qed.

Lemma cutset_byte c :
  existsb (fun x => ord x =? ord c) (bytes_of assistant.title_cutset) = in_cutset c.
Proof.
  unfold in_cutset. induction (bytes_of assistant.title_cutset) as [|x l IH]; [done|].
  simpl. rewrite IH. f_equal.
  destruct (Ascii.eqb c x) eqn:E.
  - apply Ascii.eqb_eq in E as ->. apply Z.eqb_refl.
  - apply Z.eqb_neq. intros H. apply ord_inj in H as ->. by rewrite Ascii.eqb_refl in E.
Qed.

(** What [strings.Trim] leaves of [s], for the cutset of [Title]: a piece of
    [s] without a byte of the cutset at either end. *)
Lemma Trim_cutset s :
  (exists pre post,
     bytes_of s = pre ++ bytes_of (strings.Trim s assistant.title_cutset) ++ post)
  /\ (forall c rest, bytes_of (strings.Trim s assistant.title_cutset) = c :: rest ->
                     in_cutset c = false)
  /\ (forall pre c, bytes_of (strings.Trim s assistant.title_cutset) = pre ++ [c] ->
                    in_cutset c = false).
Proof.
  unfold strings.Trim. rewrite bytes_of_string_of, Trim_bytes_cutset.
  set (as_ := fun z => existsb _ _).
  unfold strings.trimRightASCII.
  destruct (trimRightASCII_at_take (bytes_of s) as_ (len (bytes_of s))) as (k & Hk & Hr).
  destruct (trimLeftASCII_suffix (strings.trimRightASCII_at (bytes_of s) as_ (len (bytes_of s))) as_)
    as [pre Hl].
  split_and!.
  - exists pre, (drop k (bytes_of s)). rewrite app_assoc, <- Hl, Hr. by rewrite take_drop.
  - intros c rest H. apply trimLeftASCII_head in H. by rewrite <- cutset_byte.
  - intros p c H. rewrite H in Hl. rewrite app_assoc in Hl.
    apply trimRightASCII_at_last in Hl; [|done]. by rewrite <- cutset_byte.
Qed.

(** X9. The title [Title] returns, whatever the model answered: never an
    error, never empty, never longer than 80 bytes, without a newline byte,
    and without a byte of the cutset (space, tab, carriage return, newline,
    hyphen, quotes) at its start; nor at its end, as long as it is shorter
    than 80 bytes. *)
Theorem clean_title_shape resp err :
  snd (assistant.clean_title resp err) = None
  /\ (1 <= String.length (fst (assistant.clean_title resp err)) <= 80)%nat
  /\ ~ In (ascii_of_nat 10) (bytes_of (fst (assistant.clean_title resp err)))
  /\ (forall c rest,
        bytes_of (fst (assistant.clean_title resp err)) = c :: rest ->
        in_cutset c = false)
  /\ (forall pre c,
        (String.length (fst (assistant.clean_title resp err)) < 80)%nat ->
        bytes_of (fst (assistant.clean_title resp err)) = pre ++ [c] ->
        in_cutset c = false).
Proof.
  assert (forall P : string * error -> Prop,
            P (assistant.title_fallback, None) ->
            (forall c, nth_error (assistant.Choices resp) 0 = Some c ->
               let t := strings.Trim (strings.ReplaceAll c assistant.newline " ")
                          assistant.title_cutset in
               t <> EmptyString ->
               P (if (80 <? String.length t)%nat then string_of (take 80 (bytes_of t))
                  else t, None)) ->
            P (assistant.clean_title resp err)) as Hcases.
  { intros P Hfb Hok. unfold assistant.clean_title.
    destruct (negb (is_nil err)); [exact Hfb|]. simpl orb.
    destruct (assistant.Choices resp) as [|c cs]; [exact Hfb|]. simpl.
    destruct (String.eqb _ "") eqn:E; [exact Hfb|].
    apply (Hok c eq_refl). intros H. rewrite H in E. done. }
  apply Hcases; clear Hcases.
  - split; [done|]. split; [simpl; lia|]. split; [|split].
    + vm_compute. intuition discriminate.
    + intros c rest [= <- _]. reflexivity.
    + intros pre c _ H.
      change (bytes_of (assistant.title_fallback, @None GoError).1)
        with (bytes_of "New conversatio" ++ ["n"%char]) in H.
      apply app_inj_tail in H as [_ <-]. reflexivity.
  - intros c _ t Hne. cbn [fst snd].
    destruct (Trim_cutset (strings.ReplaceAll c assistant.newline " "))
      as ((pre & post & Hsub) & Hhead & Hlast). fold t in Hsub, Hhead, Hlast.
    assert (bytes_of t <> []) as Hb.
    { intros H. apply Hne. by rewrite <- (string_of_bytes_of t), H. }
    assert (~ In (ascii_of_nat 10) (bytes_of t)) as Hnl.
    { intros Hin. eapply ReplaceAll_no_newline; [|reflexivity].
      rewrite Hsub. apply in_or_app. right. apply in_or_app. by left. }
    split; [done|].
    destruct (80 <? String.length t)%nat eqn:E.
    + apply Nat.ltb_lt in E. rewrite <- length_bytes_of in E.
      rewrite length_string_of, bytes_of_string_of, length_take.
      split; [lia|]. split; [|split].
      * intros Hin. apply Hnl. apply list_elem_of_In in Hin.
        apply list_elem_of_In. apply elem_of_take in Hin as (i & Hi & _).
        by eapply list_elem_of_lookup_2.
      * intros x rest Ht. destruct (bytes_of t) as [|y b]; [done|].
        injection Ht as <- _. by eapply Hhead.
      * intros p x Hlt. lia.
    + apply Nat.ltb_ge in E. split; [|split; [done|split; [done|]]].
      * rewrite <- length_bytes_of in *. destruct (bytes_of t); [done|]. simpl in *. lia.
      * intros p x _. apply Hlast.
Qed.

Lemma replace_byte_id o n s :
  ~ In o s -> strings.replace_nonempty s [o] [n] 0 = s.
Proof.
  induction s as [|x s IH]; [done|]. intros Hin.
  cbn [strings.replace_nonempty strings.has_prefix].
  destruct (Ascii.eqb o x) eqn:E.
  - apply Ascii.eqb_eq in E. destruct Hin. by left.
  - rewrite andb_false_l. rewrite IH; [done|]. intros H. apply Hin. by right.
Qed.

Lemma trimLeftASCII_id s as_ :
  (forall c rest, s = c :: rest -> as_ (ord c) = false) -> strings.trimLeftASCII s as_ = s.
Proof.
  destruct s as [|c s]; [done|]. intros H. simpl. by rewrite (H c s eq_refl).
Qed.

Lemma trimRightASCII_id s as_ :
  (forall pre c, s = pre ++ [c] -> as_ (ord c) = false) -> strings.trimRightASCII s as_ = s.
Proof.
  intros H. unfold strings.trimRightASCII, len.
  destruct (List.length s) as [|n] eqn:En.
  - destruct s; [done|discriminate].
  - cbn [strings.trimRightASCII_at].
    destruct (lookup_lt_is_Some_2 s n ltac:(lia)) as [x Hx].
    assert (s = take n s ++ [x]) as Hs.
    { rewrite <- (take_S_r s n x Hx), <- En. by rewrite firstn_all. }
    rewrite (nth_lookup_Some s n zero x Hx), (H _ _ Hs), <- En. apply firstn_all.
Qed.

(** X10. A title the model gives in the wanted form is returned as it is:
    when the first choice is not empty, has no newline byte, neither begins
    nor ends with a byte of the cutset, and has at most 80 bytes, [Title]'s
    cleaning returns that very string. *)
Theorem clean_title_keeps_clean (title : string) (others : list string) :
  title <> EmptyString ->
  ~ In (ascii_of_nat 10) (bytes_of title) ->
  (forall c rest, bytes_of title = c :: rest -> in_cutset c = false) ->
  (forall pre c, bytes_of title = pre ++ [c] -> in_cutset c = false) ->
  (String.length title <= 80)%nat ->
  assistant.clean_title {| assistant.Choices := title :: others |} None = (title, None).
Proof.
  intros Hne Hnl Hhead Hlast Hlen. unfold assistant.clean_title. simpl.
  assert (strings.ReplaceAll title assistant.newline " " = title) as ->.
  { unfold strings.ReplaceAll.
    change (String.eqb assistant.newline " ") with false. cbv iota.
    change (bytes_of assistant.newline) with [ascii_of_nat 10]. cbv iota.
    change (bytes_of " ") with [ascii_of_nat 32].
    rewrite replace_byte_id by done. apply string_of_bytes_of. }
  assert (strings.Trim title assistant.title_cutset = title) as ->.
  { unfold strings.Trim. rewrite Trim_bytes_cutset.
    rewrite trimRightASCII_id by (intros pre c H; rewrite cutset_byte; eauto).
    rewrite trimLeftASCII_id by (intros c rest H; rewrite cutset_byte; eauto).
    apply string_of_bytes_of. }
  destruct (String.eqb title "") eqn:E; [by apply String.eqb_eq in E|].
  destruct (Nat.ltb_spec 80 (String.length title)); [lia|done].
Qed.

Example clean_title_keeps_clean_witness :
  assistant.clean_title {| assistant.Choices := ["Barcelona weather"] |} None
  = ("Barcelona weather", None).
Proof.
  assert (~ In (ascii_of_nat 10) (bytes_of "Barcelona weather")) as Hnl.
  { vm_compute. intuition discriminate. }
  assert (forall c rest, bytes_of "Barcelona weather" = c :: rest -> in_cutset c = false)
    as Hhead by (by intros c rest [= <- _]).
  assert (forall pre c, bytes_of "Barcelona weather" = pre ++ [c] -> in_cutset c = false)
    as Hlast.
  { intros pre c H.
    change (bytes_of "Barcelona weather") with (bytes_of "Barcelona weathe" ++ ["r"%char]) in H.
    by apply app_inj_tail in H as [_ <-]. }
  assert (String.length "Barcelona weather" <= 80)%nat as Hlen by (simpl; lia).
  assert ("Barcelona weather" <> EmptyString) as Hne by done.
  exact (clean_title_keeps_clean "Barcelona weather" [] Hne Hnl Hhead Hlast Hlen).
Defined.

(** * Further properties: the log of [StartConversation] *)

Lemma expected_log_failed a ctx conv title err :
  (title, err) = assist_Title a ctx conv -> title_failed title err = true ->
  expected_log a ctx conv = [title_log_record err].
Proof. unfold expected_log. intros <- Hf. by rewrite Hf. Qed.

Lemma expected_log_ok a ctx conv title err :
  (title, err) = assist_Title a ctx conv -> title_failed title err = false ->
  expected_log a ctx conv = [].
Proof. unfold expected_log. intros <- Hf. by rewrite Hf. Qed.

Lemma log_inv_init a ctx conv : log_inv a ctx conv (init conv).
Proof. reflexivity. Qed.

Lemma log_inv_Step a ctx conv st st' :
  Inv a ctx conv st -> log_inv a ctx conv st -> Step a ctx st st' ->
  log_inv a ctx conv st'.
Proof.
  intros (Hm & Ht & Hr) Hl [t Hstep].
  destruct st as [m gt gr tc rc c lg].
  unfold log_inv, title_inv in *. simpl in *.
  destruct t; simpl in Hstep.
  - unfold step_main in Hstep. simpl in Hstep.
    destruct m; simpl in *; simplify_eq/=; try done.
    + destruct gt; simpl in *; try done; lia.
    + destruct tc; simplify_eq/=. done.
    + destruct rc; simplify_eq/=. done.
    + destruct (snd replyResult); simplify_eq/=; done.
  - unfold step_title in Hstep. simpl in Hstep.
    destruct gt; simpl in *; simplify_eq/=; try done.
    + destruct (assist_Title a ctx c); simplify_eq/=. done.
    + destruct Ht as (_ & _ & Ht).
      destruct (title_failed title err) eqn:E; simplify_eq/=; [done|].
      split; [done|]. by eapply expected_log_ok.
    + destruct Ht as (_ & _ & Ht & Hf). symmetry. by eapply expected_log_failed.
    + destruct (chan_send tc untitled); simplify_eq/=. done.
    + destruct (chan_send tc title); simplify_eq/=. destruct Hl as [-> ->]. done.
  - unfold step_reply in Hstep. simpl in Hstep.
    destruct gr; simpl in *; simplify_eq/=; try done.
    + destruct (assist_Reply a ctx c); simplify_eq/=. done.
    + destruct (chan_send rc (reply, err)); simplify_eq/=. done.
Qed.

Lemma reachable_log_inv a ctx conv st :
  reachable a ctx conv st -> log_inv a ctx conv st.
Proof.
  intros Hr.
  cut (Inv a ctx conv st /\ log_inv a ctx conv st); [tauto|].
  eapply (rtc_ind_r (fun st => Inv a ctx conv st /\ log_inv a ctx conv st));
    [split; [apply Inv_init|apply log_inv_init]| |exact Hr].
  intros y z _ Hstep [HI Hl]. split; [by eapply Inv_Step|by eapply log_inv_Step].
Qed.

Lemma reachable_logged a ctx conv st :
  reachable a ctx conv st -> logged st = [] \/ logged st = expected_log a ctx conv.
Proof.
  intros Hreach. pose proof (reachable_log_inv _ _ _ _ Hreach) as Hl.
  unfold log_inv in Hl. destruct (gtitle st); intuition.
Qed.

Lemma final_logged a ctx conv : ends_with_log a ctx conv (expected_log a ctx conv).
Proof.
  intros st Hreach Hnf.
  pose proof (reachable_Inv _ _ _ _ Hreach) as HI.
  destruct (returned (main st)) eqn:Hret.
  - assert (inspecting (main st) = true) as Hi by (by destruct (main st)).
    destruct (join_waits _ _ _ _ Hreach Hi) as [Ht _].
    pose proof (reachable_log_inv _ _ _ _ Hreach) as Hl.
    unfold log_inv in Hl. unfold title_delivered in Ht. by destruct (gtitle st).
  - destruct Hnf. by eapply Inv_progress.
Qed.

Lemma never_logs_ok a ctx conv : expected_log a ctx conv = [] -> never_logs a ctx conv.
Proof.
  intros He st Hreach. destruct (reachable_logged _ _ _ _ Hreach) as [H|H]; congruence.
Qed.

(** X11. A failure of the title (an error, or a blank title) is logged
    exactly once in every run, whatever the schedule, and nothing else is
    ever logged: in every state of every run the log is empty or is the log
    the run ends with; in every state where no routine can move it is that
    log, which holds one record, with the error of the title operation, when
    the title failed, and no record when it did not. A failure of the reply
    is not logged. *)
Theorem title_failure_logged_once a ctx conv :
  (forall st, reachable a ctx conv st ->
     logged st = [] \/ logged st = expected_log a ctx conv)
  /\ (forall st, reachable a ctx conv st -> nf (Step a ctx) st ->
        logged st = expected_log a ctx conv)
  /\ (snd (assist_Title a ctx conv) <> None \/ blank (fst (assist_Title a ctx conv)) ->
      expected_log a ctx conv =
        [{| log_msg := "Failed to generate conversation title";
            log_error := snd (assist_Title a ctx conv) |}])
  /\ (snd (assist_Title a ctx conv) = None -> ~ blank (fst (assist_Title a ctx conv)) ->
      expected_log a ctx conv = []).
Proof.
  split_and!.
  - intros st Hreach. pose proof (reachable_log_inv _ _ _ _ Hreach) as Hl.
    unfold log_inv in Hl. destruct (gtitle st); intuition.
  - intros st Hreach Hnf.
    pose proof (reachable_Inv _ _ _ _ Hreach) as HI.
    destruct (returned (main st)) eqn:Hret.
    + assert (inspecting (main st) = true) as Hi by (by destruct (main st)).
      destruct (join_waits _ _ _ _ Hreach Hi) as [Ht _].
      pose proof (reachable_log_inv _ _ _ _ Hreach) as Hl.
      unfold log_inv in Hl. unfold title_delivered in Ht. by destruct (gtitle st).
    + destruct Hnf. by eapply Inv_progress.
  - intros H. unfold expected_log. destruct (assist_Title a ctx conv) as [t e].
    simpl in *. apply title_failed_spec in H. by rewrite H.
  - intros He Hb. unfold expected_log. destruct (assist_Title a ctx conv) as [t e].
    simpl in *. destruct (title_failed t e) eqn:E; [|done].
    apply title_failed_spec in E. tauto.
Qed.

(** * Further properties: [Title] under [StartConversation] *)

(** X12. With the method [Title] as the title operation, a failure of the
    model never reaches line 161 as an error: when every call of the model
    fails, [Title] returns "New conversation" and no error, so no run ever
    logs anything, nor substitutes "Untitled conversation"; a run in which
    the reply succeeds ends with the title of the conversation equal to "New
    conversation", its messages as they were. *)
Theorem model_failure_titles_New_conversation cli a ctx conv reply :
  assistant.Title cli ctx conv = Some (assist_Title a ctx conv) ->
  (forall params, snd (cli ctx params) <> None) ->
  assist_Reply a ctx conv = (reply, None) ->
  assist_Title a ctx conv = ("New conversation", None)
  /\ never_logs a ctx conv
  /\ always_ends_with a ctx conv
       (Joined {| Title := "New conversation"; Messages := Messages conv |} reply).
Proof.
  intros HT Hcli Hreply.
  destruct (Title_is_clean_title _ _ _ _ HT) as [params Hr].
  rewrite clean_title_fallback in Hr by (left; apply Hcli).
  change assistant.title_fallback with "New conversation" in Hr.
  split; [done|].
  assert (title_failed "New conversation" None = false) as Hf by reflexivity.
  split.
  - apply never_logs_ok. eapply expected_log_ok; [by rewrite Hr|done].
  - pose proof (runs_end a ctx conv) as Hend.
    unfold expected_outcome in Hend. rewrite Hreply in Hend.
    rewrite (sent_title_ok a ctx conv _ _ (eq_sym Hr) Hf) in Hend. exact Hend.
Qed.

Example model_failure_titles_New_conversation_witness :
  assist_Title (assistant_over failing_client ("It is sunny in Barcelona.", None))
    context_Background example_conversation = ("New conversation", None)
  /\ never_logs (assistant_over failing_client ("It is sunny in Barcelona.", None))
       context_Background example_conversation
  /\ always_ends_with (assistant_over failing_client ("It is sunny in Barcelona.", None))
       context_Background example_conversation
       (Joined {| Title := "New conversation";
                  Messages := Messages example_conversation |}
          "It is sunny in Barcelona.").
Proof.
  assert (forall params, snd (failing_client context_Background params) <> None)
    as Hcli by done.
  exact (model_failure_titles_New_conversation failing_client
           (assistant_over failing_client ("It is sunny in Barcelona.", None))
           context_Background example_conversation "It is sunny in Barcelona."
           eq_refl Hcli eq_refl).
Defined.

(** * Further properties: the first versions *)

Lemma fill_app ms done todo :
  List.length todo = List.length ms ->
  title_v0.fill ms (List.length done) (done ++ todo)
  = Some (done ++ map (fun m => title_v0.openai_UserMessage (Content m)) ms).
Proof.
  revert done todo. induction ms as [|m ms IH]; intros done todo Hlen.
  - destruct todo; [|done]. reflexivity.
  - destruct todo as [|x todo]; [done|]. simpl in Hlen.
    cbn [title_v0.fill]. unfold title_v0.assign.
    rewrite length_app. simpl.
    destruct (Nat.ltb_spec (List.length done) (List.length done + S (List.length todo)));
      [|lia].
    simpl. rewrite insert_app_r_alt by lia. rewrite Nat.sub_diag. simpl.
    specialize (IH (done ++ [title_v0.openai_UserMessage (Content m)]) todo ltac:(lia)).
    rewrite length_app in IH. simpl in IH. rewrite Nat.add_1_r in IH.
    rewrite <- !app_assoc in IH. exact IH.
Qed.

(** X13. The prompt of the first version of [Title]: building it panics on a
    conversation without messages, and on every other conversation it is the
    messages of the conversation, each as a user message and in order; the
    instruction written to the first slot is overwritten and is not part of
    what the model is sent. *)
Theorem prompt_v0_loses_instruction conv :
  (title_v0.prompt conv = None <-> Messages conv = [])
  /\ (Messages conv <> [] ->
      title_v0.prompt conv =
        Some (map (fun m => title_v0.openai_UserMessage (Content m)) (Messages conv)))
  /\ (forall msgs, title_v0.prompt conv = Some msgs ->
        ~ In (title_v0.openai_AssistantMessage title_v0.instruction) msgs).
Proof.
  assert (Messages conv <> [] ->
          title_v0.prompt conv =
            Some (map (fun m => title_v0.openai_UserMessage (Content m)) (Messages conv)))
    as Hsome.
  { intros Hne. unfold title_v0.prompt.
    destruct (Messages conv) as [|m ms]; [done|].
    change (title_v0.fill (m :: ms) (List.length (@nil title_v0.MessageParam))
              ([] ++ title_v0.openai_AssistantMessage title_v0.instruction
                       :: replicate (List.length ms) title_v0.zero_value)
            = Some ([] ++ map (fun m => title_v0.openai_UserMessage (Content m))
                            (m :: ms))).
    apply fill_app. simpl. by rewrite length_replicate. }
  split_and!; [|exact Hsome|].
  - split.
    + intros Hnone. destruct (Messages conv) eqn:E; [done|].
      rewrite Hsome in Hnone by done. done.
    + intros Hnil. unfold title_v0.prompt. by rewrite Hnil.
  - intros msgs Hp Hin. destruct (Messages conv) eqn:E.
    + unfold title_v0.prompt in Hp. by rewrite E in Hp.
    + rewrite Hsome in Hp by done. rewrite <- E in Hp. injection Hp as <-.
      apply in_map_iff in Hin as (m' & Hm' & _). done.
Qed.

Lemma twirp_wraps e : twirp_InternalErrorWith e <> e.
Proof. induction e as [msg|e IH]; [done|]. intros [= H]. by apply IH. Qed.

Lemma untitled_not_blank : ~ blank untitled.
Proof.
  intros Hb. apply TrimSpace_blank in Hb. vm_compute in Hb. discriminate.
Qed.

(** X14. The concurrent [StartConversation] ends as the sequential first
    version did when nothing fails: for a reply operation that does not read
    the title of the conversation, a title operation that returns a title
    that is not blank, and a reply without error, both end with the title of
    the conversation equal to that title, its messages as they were, and the
    same reply; the first version logs nothing, and no run of the concurrent
    version ever logs anything. *)
Theorem concurrent_agrees_with_v0 a ctx conv title reply :
  reply_ignores_title a ctx conv ->
  assist_Title a ctx conv = (title, None) -> ~ blank title ->
  assist_Reply a ctx conv = (reply, None) ->
  chat_v0.result_outcome (chat_v0.StartConversation a ctx conv)
    = Joined {| Title := title; Messages := Messages conv |} reply
  /\ chat_v0.result_logged (chat_v0.StartConversation a ctx conv) = []
  /\ always_ends_with a ctx conv
       (Joined {| Title := title; Messages := Messages conv |} reply)
  /\ never_logs a ctx conv.
Proof.
  intros Hign HT Hb HR.
  assert (title_failed title None = false) as Hf.
  { destruct (title_failed title None) eqn:E; [|done].
    apply title_failed_spec in E. by destruct E. }
  split_and!.
  - unfold chat_v0.StartConversation. rewrite HT. simpl. by rewrite Hign, HR.
  - unfold chat_v0.StartConversation. rewrite HT. simpl. by rewrite Hign, HR.
  - pose proof (runs_end a ctx conv) as Hend.
    unfold expected_outcome in Hend. rewrite HR in Hend.
    rewrite (sent_title_ok a ctx conv _ _ (eq_sym HT) Hf) in Hend. exact Hend.
  - apply never_logs_ok. by eapply expected_log_ok.
Qed.

Example concurrent_agrees_with_v0_witness :
  chat_v0.result_outcome
    (chat_v0.StartConversation both_succeed context_Background example_conversation)
    = Joined {| Title := "Barcelona weather";
                Messages := Messages example_conversation |}
        "It is sunny in Barcelona."
  /\ chat_v0.result_logged
       (chat_v0.StartConversation both_succeed context_Background example_conversation)
     = []
  /\ always_ends_with both_succeed context_Background example_conversation
       (Joined {| Title := "Barcelona weather";
                  Messages := Messages example_conversation |}
          "It is sunny in Barcelona.")
  /\ never_logs both_succeed context_Background example_conversation.
Proof.
  assert (reply_ignores_title both_succeed context_Background example_conversation)
    as Hign by done.
  assert (~ blank "Barcelona weather") as Hb.
  { intros H. apply TrimSpace_blank in H. vm_compute in H. discriminate. }
  exact (concurrent_agrees_with_v0 both_succeed context_Background example_conversation
           "Barcelona weather" "It is sunny in Barcelona." Hign eq_refl Hb eq_refl).
Defined.

(** X15. Where the two versions differ when the reply fails, for a reply
    operation that does not read the title. The first version returns the
    error of the reply as it is, and by then the conversation has the title
    the title operation gave, when it gave one without error (after an error
    of the title operation the conversation is as it was); the concurrent
    version returns the error of the reply wrapped by
    [twirp.InternalErrorWith], which is another error, and never changes the
    conversation. *)
Theorem reply_failure_v0_and_concurrent a ctx conv e :
  reply_ignores_title a ctx conv ->
  snd (assist_Reply a ctx conv) = Some e ->
  chat_v0.result_outcome (chat_v0.StartConversation a ctx conv) = Failed e
  /\ chat_v0.result_conversation (chat_v0.StartConversation a ctx conv)
     = match snd (assist_Title a ctx conv) with
       | None => {| Title := fst (assist_Title a ctx conv);
                    Messages := Messages conv |}
       | Some _ => conv
       end
  /\ always_ends_with a ctx conv (Failed (twirp_InternalErrorWith e))
  /\ Failed (twirp_InternalErrorWith e) <> Failed e
  /\ (forall st, reachable a ctx conv st -> conversation st = conv).
Proof.
  intros Hign He. split_and!.
  - unfold chat_v0.StartConversation.
    destruct (assist_Title a ctx conv) as [t [te|]]; simpl.
    + destruct (assist_Reply a ctx conv) as [r re]. simpl in He. by subst.
    + rewrite Hign. destruct (assist_Reply a ctx conv) as [r re]. simpl in He. by subst.
  - unfold chat_v0.StartConversation.
    destruct (assist_Title a ctx conv) as [t [te|]]; simpl.
    + destruct (assist_Reply a ctx conv) as [r re]. simpl in He. by subst.
    + rewrite Hign. destruct (assist_Reply a ctx conv) as [r re]. simpl in He. by subst.
  - pose proof (runs_end a ctx conv) as Hend.
    unfold expected_outcome in Hend.
    destruct (assist_Reply a ctx conv) as [r re]. simpl in He. by subst.
  - intros [= H]. by apply twirp_wraps in H.
  - intros st Hreach. apply (reachable_conversation a ctx conv st Hreach). congruence.
Qed.

Example reply_failure_v0_and_concurrent_witness :
  chat_v0.result_outcome
    (chat_v0.StartConversation reply_fails context_Background example_conversation)
  = Failed (errors_New "openai: 503")
  /\ chat_v0.result_conversation
       (chat_v0.StartConversation reply_fails context_Background example_conversation)
     = {| Title := "Barcelona weather"; Messages := Messages example_conversation |}
  /\ always_ends_with reply_fails context_Background example_conversation
       (Failed (twirp_InternalErrorWith (errors_New "openai: 503")))
  /\ Failed (twirp_InternalErrorWith (errors_New "openai: 503"))
     <> Failed (errors_New "openai: 503")
  /\ (forall st, reachable reply_fails context_Background example_conversation st ->
                 conversation st = example_conversation).
Proof.
  assert (reply_ignores_title reply_fails context_Background example_conversation)
    as Hign by done.
  exact (reply_failure_v0_and_concurrent reply_fails context_Background
           example_conversation (errors_New "openai: 503") Hign eq_refl).
Defined.

(** X16. Where the two versions differ when the title fails and the reply
    does not, for a reply operation that does not read the title. The
    concurrent version ends every run with the title of the conversation
    equal to "Untitled conversation", which is not blank, and with one
    record in the log, holding the error of the title operation ([nil] after
    a blank title). The first version, after an error of the title
    operation, leaves the conversation as it was, previous title included,
    and logs that same record; after a blank title without error it sets
    that blank title on the conversation and logs nothing. *)
Theorem title_failure_v0_and_concurrent a ctx conv reply :
  reply_ignores_title a ctx conv ->
  assist_Reply a ctx conv = (reply, None) ->
  snd (assist_Title a ctx conv) <> None \/ blank (fst (assist_Title a ctx conv)) ->
  always_ends_with a ctx conv
    (Joined {| Title := "Untitled conversation"; Messages := Messages conv |} reply)
  /\ ends_with_log a ctx conv
       [{| log_msg := "Failed to generate conversation title";
           log_error := snd (assist_Title a ctx conv) |}]
  /\ ~ blank "Untitled conversation"
  /\ match snd (assist_Title a ctx conv) with
     | Some e =>
       chat_v0.result_outcome (chat_v0.StartConversation a ctx conv) = Joined conv reply
       /\ chat_v0.result_logged (chat_v0.StartConversation a ctx conv)
          = [{| log_msg := "Failed to generate conversation title";
                log_error := Some e |}]
     | None =>
       chat_v0.result_outcome (chat_v0.StartConversation a ctx conv)
       = Joined {| Title := fst (assist_Title a ctx conv);
                   Messages := Messages conv |} reply
       /\ chat_v0.result_logged (chat_v0.StartConversation a ctx conv) = []
     end.
Proof.
  intros Hign HR Hfail.
  assert (title_failed (fst (assist_Title a ctx conv)) (snd (assist_Title a ctx conv))
          = true) as Hf by (by apply title_failed_spec).
  split_and!.
  - pose proof (runs_end a ctx conv) as Hend.
    unfold expected_outcome in Hend. rewrite HR in Hend.
    rewrite (sent_title_untitled a ctx conv Hfail) in Hend. exact Hend.
  - pose proof (final_logged a ctx conv) as Hlog.
    unfold expected_log in Hlog.
    destruct (assist_Title a ctx conv) as [t te]. simpl in *. by rewrite Hf in Hlog.
  - apply untitled_not_blank.
  - unfold chat_v0.StartConversation.
    destruct (assist_Title a ctx conv) as [t [te|]]; simpl in *.
    + by rewrite HR.
    + by rewrite Hign, HR.
Qed.

Example title_failure_v0_and_concurrent_witness :
  always_ends_with title_blank context_Background example_conversation
    (Joined {| Title := "Untitled conversation";
               Messages := Messages example_conversation |}
       "It is sunny in Barcelona.")
  /\ ends_with_log title_blank context_Background example_conversation
       [{| log_msg := "Failed to generate conversation title"; log_error := None |}]
  /\ ~ blank "Untitled conversation"
  /\ chat_v0.result_outcome
       (chat_v0.StartConversation title_blank context_Background example_conversation)
     = Joined {| Title := "   "; Messages := Messages example_conversation |}
         "It is sunny in Barcelona."
     /\ chat_v0.result_logged
          (chat_v0.StartConversation title_blank context_Background
             example_conversation) = [].
Proof.
  assert (reply_ignores_title title_blank context_Background example_conversation)
    as Hign by done.
  assert (snd (assist_Title title_blank context_Background example_conversation) <> None
          \/ blank (fst (assist_Title title_blank context_Background
                           example_conversation))) as Hfail.
  { right. apply TrimSpace_blank. reflexivity. }
  exact (title_failure_v0_and_concurrent title_blank context_Background
           example_conversation "It is sunny in Barcelona." Hign eq_refl Hfail).
Defined.

(** X17. The test of line 161, [err != nil || strings.TrimSpace(title) == ""],
    holds exactly when the title operation returned an error or a title that
    is empty or made of Unicode white space only, in its UTF-8 encoding; and
    the two fallback titles pass the test: neither is blank. *)
Theorem title_failed_exactly_blank title err :
  (title_failed title err = true <-> err <> None \/ blank title)
  /\ title_failed untitled None = false
  /\ title_failed assistant.title_fallback None = false.
Proof.
  split_and!; [apply title_failed_spec|reflexivity|reflexivity].
Qed.
